(** * OAuth2 authorization server: the grant / exchange engine

    A shallow embedding of [oauth2.controller]: the handlers registered on the
    [oauth2orize] server (grants, the four token exchanges, the immediate
    approval check, introspection, client (de)serialisation), over an explicit
    model of the five mongoose collections they read and write. *)

From Stdlib Require Import List Ascii String Bool ZArith Arith Lia.
From Stdlib Require Import DecimalString DecimalNat.
Import ListNotations.
Open Scope string_scope.
Open Scope list_scope.

(** ** Documents *)

(** A mongoose [_id]. *)
Definition ObjectId := nat.

Record Client := {
  client__id : ObjectId;              (* _id *)
  client_id : string;                 (* id *)
  client_secret : string;
  client_redirectUris : list string;
  client_scopes : list string
}.

Record User := {
  user__id : ObjectId;
  user_email : string;
  user_name : string;
  user_password : string              (* the stored hash *)
}.

Record AuthCode := {
  authCode__id : ObjectId;
  authCode_value : string;
  authCode_clientId : ObjectId;       (* ref Client *)
  authCode_userId : ObjectId;         (* ref User *)
  authCode_redirectUri : string;
  authCode_scopes : list string
}.

Record AccessToken := {
  accessToken__id : ObjectId;
  accessToken_value : string;
  accessToken_clientId : ObjectId;            (* ref Client *)
  accessToken_userId : option ObjectId;       (* ref User, absent for client_credentials *)
  accessToken_scopes : list string;
  accessToken_grantType : string;
  accessToken_expireAt : Z                    (* getTime() of the Date *)
}.

Record RefreshToken := {
  refreshToken__id : ObjectId;
  refreshToken_value : string;
  refreshToken_accessTokenId : ObjectId       (* ref AccessToken *)
}.

(** The database: one list per collection, in insertion order ([findOne]
    answers with the first match). *)
Record Store := {
  clients : list Client;
  users : list User;
  authCodes : list AuthCode;
  accessTokens : list AccessToken;
  refreshTokens : list RefreshToken
}.

(** ** What one handler invocation gets from its runtime *)

(** The awaited writes of the controller. *)
Inductive WriteOp :=
| AuthCodeSave | AuthCodeRemove
| AccessTokenSave | AccessTokenRemove
| RefreshTokenSave | RefreshTokenRemove.

(** The values a request draws from the value generators, from mongoose
    (fresh [_id]s, the [expireAt] default of the schema), and the writes that
    the driver or a schema validator makes throw during this request. *)
Record Env := {
  authCodeValue : string;             (* authCodeValueGenerator() *)
  accessTokenValue : string;          (* accessTokenValueGenerator() *)
  refreshTokenValue : string;         (* refreshTokenValueGenerator() *)
  new_authCode_id : ObjectId;
  new_accessToken_id : ObjectId;
  new_refreshToken_id : ObjectId;
  expireAt : Z;
  throws : WriteOp -> bool
}.

Inductive Err :=
| StoreError (op : WriteOp)           (* an awaited write rejected *)
| NewError (message : string).        (* new Error(message) *)

(** What the handler hands to [done], or the [TypeError] of reading a
    property of [null], which no [try] of the controller covers. *)
Inductive Outcome :=
| DoneErr (err : Err)                                           (* done(err) *)
| DoneFalse                                                     (* done(null, false) *)
| DoneCode (code : string)                                      (* done(null, code) *)
| DoneTokens (accessToken : string) (refreshToken : option string)
             (expires_in : Z)                                   (* done(null, at, rt, params) *)
| Uncaught.

(** ** The [try] blocks: store passing with exceptions *)

Definition Try (A : Type) : Type := Store -> Store * (Err + A).

Definition ret {A} (a : A) : Try A := fun st => (st, inr a).

Definition bind {A B} (m : Try A) (k : A -> Try B) : Try B :=
  fun st => match m st with
            | (st', inl e) => (st', inl e)
            | (st', inr a) => k a st'
            end.

Notation "x <- 'await' m ;; k" := (bind m (fun x => k))
  (at level 61, m at next level, right associativity).

(** [try { ... done(...) } catch (err) { done(err) }] *)
Definition try_catch (body : Try Outcome) (st : Store) : Outcome * Store :=
  match body st with
  | (st', inl e) => (DoneErr e, st')
  | (st', inr o) => (o, st')
  end.

(** ** The models *)

Module clientModel.
(** [clientModel.findOne({ id })] *)
Definition findOne_id (id : string) (st : Store) : option Client :=
  find (fun c => client_id c =? id) (clients st).
(** resolving a [ref: Client] by [populate] *)
Definition findById (_id : ObjectId) (st : Store) : option Client :=
  find (fun c => client__id c =? _id)%nat (clients st).
End clientModel.

Module userModel.
(** [userModel.findOne({ email })] *)
Definition findOne_email (email : string) (st : Store) : option User :=
  find (fun u => user_email u =? email) (users st).
Definition findById (_id : ObjectId) (st : Store) : option User :=
  find (fun u => user__id u =? _id)%nat (users st).
End userModel.

Module authCodeModel.
(** [authCodeModel.findOne({ value })] *)
Definition findOne_value (value : string) (st : Store) : option AuthCode :=
  find (fun a => authCode_value a =? value) (authCodes st).

Definition set (l : list AuthCode) (st : Store) : Store :=
  {| clients := clients st; users := users st; authCodes := l;
     accessTokens := accessTokens st; refreshTokens := refreshTokens st |}.

(** [new authCodeModel(doc).save()]: the insert is refused on a duplicate
    [_id]. *)
Definition save (env : Env) (doc : AuthCode) : Try AuthCode := fun st =>
  if throws env AuthCodeSave
     || existsb (fun a => authCode__id a =? authCode__id doc)%nat (authCodes st)
  then (st, inl (StoreError AuthCodeSave))
  else (set (authCodes st ++ [doc]) st, inr doc).

(** [doc.remove()]: deletes by [_id], whether or not the document is still
    there, and resolves to the document. *)
Definition remove (env : Env) (doc : AuthCode) : Try AuthCode := fun st =>
  if throws env AuthCodeRemove
  then (st, inl (StoreError AuthCodeRemove))
  else (set (filter (fun a => negb (authCode__id a =? authCode__id doc)%nat) (authCodes st)) st,
        inr doc).
End authCodeModel.

Module accessTokenModel.
(** [accessTokenModel.findOne({ value })] *)
Definition findOne_value (value : string) (st : Store) : option AccessToken :=
  find (fun t => accessToken_value t =? value) (accessTokens st).

Definition userId_eqb (o : option ObjectId) (_id : ObjectId) : bool :=
  match o with Some u => (u =? _id)%nat | None => false end.

(** [accessTokenModel.findOne({ clientId, userId })] *)
Definition findOne_clientId_userId (clientId userId : ObjectId) (st : Store)
  : option AccessToken :=
  find (fun t => (accessToken_clientId t =? clientId)%nat
                 && userId_eqb (accessToken_userId t) userId) (accessTokens st).

Definition findById (_id : ObjectId) (st : Store) : option AccessToken :=
  find (fun t => accessToken__id t =? _id)%nat (accessTokens st).

Definition set (l : list AccessToken) (st : Store) : Store :=
  {| clients := clients st; users := users st; authCodes := authCodes st;
     accessTokens := l; refreshTokens := refreshTokens st |}.

Definition save (env : Env) (doc : AccessToken) : Try AccessToken := fun st =>
  if throws env AccessTokenSave
     || existsb (fun t => accessToken__id t =? accessToken__id doc)%nat (accessTokens st)
  then (st, inl (StoreError AccessTokenSave))
  else (set (accessTokens st ++ [doc]) st, inr doc).

Definition remove (env : Env) (doc : AccessToken) : Try AccessToken := fun st =>
  if throws env AccessTokenRemove
  then (st, inl (StoreError AccessTokenRemove))
  else (set (filter (fun t => negb (accessToken__id t =? accessToken__id doc)%nat)
                    (accessTokens st)) st,
        inr doc).
End accessTokenModel.

Module refreshTokenModel.
(** [refreshTokenModel.findOne({ value })] *)
Definition findOne_value (value : string) (st : Store) : option RefreshToken :=
  find (fun r => refreshToken_value r =? value) (refreshTokens st).

Definition set (l : list RefreshToken) (st : Store) : Store :=
  {| clients := clients st; users := users st; authCodes := authCodes st;
     accessTokens := accessTokens st; refreshTokens := l |}.

Definition save (env : Env) (doc : RefreshToken) : Try RefreshToken := fun st =>
  if throws env RefreshTokenSave
     || existsb (fun r => refreshToken__id r =? refreshToken__id doc)%nat (refreshTokens st)
  then (st, inl (StoreError RefreshTokenSave))
  else (set (refreshTokens st ++ [doc]) st, inr doc).

Definition remove (env : Env) (doc : RefreshToken) : Try RefreshToken := fun st =>
  if throws env RefreshTokenRemove
  then (st, inl (StoreError RefreshTokenRemove))
  else (set (filter (fun r => negb (refreshToken__id r =? refreshToken__id doc)%nat)
                    (refreshTokens st)) st,
        inr doc).
End refreshTokenModel.

(** ** Grants *)

(** [server.grant(oauth2orize.grant.code(...))] *)
Definition grant_code (env : Env) (client : Client) (redirectUri : string) (user : User)
    (ares_scope : list string) (st : Store) : Outcome * Store :=
  let authCode := {| authCode__id := new_authCode_id env;
                     authCode_redirectUri := redirectUri;
                     authCode_value := authCodeValue env;
                     authCode_clientId := client__id client;
                     authCode_userId := user__id user;
                     authCode_scopes := ares_scope |} in
  try_catch (saved <- await authCodeModel.save env authCode ;;
             ret (DoneCode (authCode_value saved))) st.

(** [server.grant(oauth2orize.grant.token(...))] *)
Definition grant_token (env : Env) (client : Client) (user : User)
    (ares_scope : list string) (st : Store) : Outcome * Store :=
  try_catch
    (accessToken <- await accessTokenModel.save env
        {| accessToken__id := new_accessToken_id env;
           accessToken_value := accessTokenValue env;
           accessToken_clientId := client__id client;
           accessToken_userId := Some (user__id user);
           accessToken_scopes := ares_scope;
           accessToken_grantType := "token";
           accessToken_expireAt := expireAt env |} ;;
     ret (DoneTokens (accessToken_value accessToken) None (accessToken_expireAt accessToken))) st.

(** ** Exchanges *)

(** The documents the exchanges build. A populated reference assigned to a
    [ref] path is cast back to its [_id]. *)

(** [new refreshTokenModel({ value: refreshTokenValueGenerator(),
    accessTokenId: accessToken._id })] *)
Definition paired_refreshToken (env : Env) (accessToken : AccessToken) : RefreshToken :=
  {| refreshToken__id := new_refreshToken_id env;
     refreshToken_value := refreshTokenValue env;
     refreshToken_accessTokenId := accessToken__id accessToken |}.

(** The access token of the code exchange: [clientId: authCode.clientId,
    userId: authCode.userId, scopes: authCode.scopes, grantType: 'code']. *)
Definition code_accessToken (env : Env) (authCode : AuthCode) (populated : Client)
    : AccessToken :=
  {| accessToken__id := new_accessToken_id env;
     accessToken_value := accessTokenValue env;
     accessToken_clientId := client__id populated;
     accessToken_userId := Some (authCode_userId authCode);
     accessToken_scopes := authCode_scopes authCode;
     accessToken_grantType := "code";
     accessToken_expireAt := expireAt env |}.

(** The access token of the refresh exchange: client, user, scopes and grant
    type of the token the refresh token was paired with. *)
Definition refreshed_accessToken (env : Env) (old : AccessToken) (populated : Client)
    : AccessToken :=
  {| accessToken__id := new_accessToken_id env;
     accessToken_value := accessTokenValue env;
     accessToken_clientId := client__id populated;
     accessToken_userId := accessToken_userId old;
     accessToken_scopes := accessToken_scopes old;
     accessToken_grantType := accessToken_grantType old;
     accessToken_expireAt := expireAt env |}.

(** [server.exchange(oauth2orize.exchange.code(...))]. The populated
    [authCode.clientId] is [null] when the referenced client is gone, and
    [.id] of it throws before the redirect uri is looked at. *)
Definition exchange_code (env : Env) (client : Client) (code redirectUri : string)
    (st : Store) : Outcome * Store :=
  match authCodeModel.findOne_value code st with
  | None => (DoneFalse, st)
  | Some authCode =>
    match clientModel.findById (authCode_clientId authCode) st with
    | None => (Uncaught, st)
    | Some populated =>
      if (client_id client =? client_id populated)
         && (redirectUri =? authCode_redirectUri authCode)
      then
        try_catch
          (authCode <- await authCodeModel.remove env authCode ;;
           accessToken <- await accessTokenModel.save env
              (code_accessToken env authCode populated) ;;
           refreshToken <- await refreshTokenModel.save env
              (paired_refreshToken env accessToken) ;;
           ret (DoneTokens (accessToken_value accessToken)
                           (Some (refreshToken_value refreshToken))
                           (accessToken_expireAt accessToken))) st
      else (DoneFalse, st)
    end
  end.

(** [server.exchange(oauth2orize.exchange.password(...))]. [validatePasswordHash]
    comes from [utils/hashUtils]; the handler only uses its boolean answer. *)
Section PasswordExchange.
Variable validatePasswordHash : string -> string -> bool.

Definition exchange_password (env : Env) (client : Client) (username password : string)
    (scope : list string) (st : Store) : Outcome * Store :=
  match clientModel.findOne_id (client_id client) st with
  | Some clientDoc =>
    if client_secret clientDoc =? client_secret client then
      match userModel.findOne_email username st with
      | Some user =>
        if validatePasswordHash password (user_password user) then
          try_catch
            (accessToken <- await accessTokenModel.save env
                {| accessToken__id := new_accessToken_id env;
                   accessToken_value := accessTokenValue env;
                   accessToken_clientId := client__id client;
                   accessToken_userId := Some (user__id user);
                   accessToken_scopes := scope;
                   accessToken_grantType := "password";
                   accessToken_expireAt := expireAt env |} ;;
             refreshToken <- await refreshTokenModel.save env
                (paired_refreshToken env accessToken) ;;
             ret (DoneTokens (accessToken_value accessToken)
                             (Some (refreshToken_value refreshToken))
                             (accessToken_expireAt accessToken))) st
        else (DoneFalse, st)
      | None => (DoneFalse, st)
      end
    else (DoneFalse, st)
  | None => (DoneFalse, st)
  end.
End PasswordExchange.

Definition incompleteScopes : string :=
  "Client doesn't support client_credentials due incomplete scopes value".

(** [server.exchange(oauth2orize.exchange.clientCredentials(...))]. The
    requested [scope] is not read. *)
Definition exchange_clientCredentials (env : Env) (client : Client) (scope : list string)
    (st : Store) : Outcome * Store :=
  let clientDoc := clientModel.findOne_id (client_id client) st in
  match clientDoc with
  | Some doc =>
    if (0 <? List.length (client_scopes doc))%nat && (client_secret doc =? client_secret client)
    then
      try_catch
        (accessToken <- await accessTokenModel.save env
            {| accessToken__id := new_accessToken_id env;
               accessToken_value := accessTokenValue env;
               accessToken_clientId := client__id client;
               accessToken_userId := None;
               accessToken_grantType := "client_credentials";
               accessToken_scopes := client_scopes doc;
               accessToken_expireAt := expireAt env |} ;;
         ret (DoneTokens (accessToken_value accessToken) None
                         (accessToken_expireAt accessToken))) st
    else if (List.length (client_scopes doc) =? 0)%nat
    then (DoneErr (NewError incompleteScopes), st)
    else (DoneFalse, st)
  | None => (DoneFalse, st)
  end.

(** [server.exchange(oauth2orize.exchange.refreshToken(...))]. The token is
    populated down to the client; [.clientId] of a missing access token and
    [.id] of a missing client both throw outside the [try]. The requested
    [scope] is not read. *)
Definition exchange_refreshToken (env : Env) (client : Client) (refreshToken : string)
    (scope : list string) (st : Store) : Outcome * Store :=
  match refreshTokenModel.findOne_value refreshToken st with
  | None => (DoneFalse, st)
  | Some refreshTokenDoc =>
    match accessTokenModel.findById (refreshToken_accessTokenId refreshTokenDoc) st with
    | None => (Uncaught, st)
    | Some oldAccessToken =>
      match clientModel.findById (accessToken_clientId oldAccessToken) st with
      | None => (Uncaught, st)
      | Some populated =>
        if client_id populated =? client_id client then
          try_catch
            (accessToken <- await accessTokenModel.save env
                (refreshed_accessToken env oldAccessToken populated) ;;
             _ <- await accessTokenModel.remove env oldAccessToken ;;
             _ <- await refreshTokenModel.remove env refreshTokenDoc ;;
             newRefreshToken <- await refreshTokenModel.save env
                (paired_refreshToken env accessToken) ;;
             ret (DoneTokens (accessToken_value accessToken)
                             (Some (refreshToken_value newRefreshToken))
                             (accessToken_expireAt accessToken))) st
        else (DoneFalse, st)
      end
    end
  end.

(** ** Authorization endpoint *)

(** The validate callback of [server.authorization]: [Some (client, redirectUri)]
    for [done(null, client, redirectUri)], [None] for [done(null, false)]. *)
Definition authorization_validate (clientId redirectUri : string) (st : Store)
    : option (Client * string) :=
  match clientModel.findOne_id clientId st with
  | Some client =>
    if existsb (String.eqb redirectUri) (client_redirectUris client)
    then Some (client, redirectUri)
    else None
  | None => None
  end.

(** Modelled from the spec: [isScopeEquals] of [utils/isEqual], which is not
    among the sources; the spec has it compare the two scopes "exactly equal
    (as sets)". *)
Definition isScopeEquals (a b : list string) : bool :=
  forallb (fun s => existsb (String.eqb s) b) a
  && forallb (fun s => existsb (String.eqb s) a) b.

(** The immediate-approval callback of [server.authorization]: the boolean
    handed to [done(null, _, null, null)]. *)
Definition authorization_immediate (client : Client) (user : User) (scope : list string)
    (st : Store) : bool :=
  match accessTokenModel.findOne_clientId_userId (client__id client) (user__id user) st with
  | Some accessToken => isScopeEquals (accessToken_scopes accessToken) scope
  | None => false
  end.

(** ** Introspection *)

(** The body sent with status 200, or the [TypeError] of [null.id]. *)
Inductive IntrospectionResponse :=
| Active (clientId : string) (scope : string) (exp : Z) (username : option string)
| Inactive                                        (* { active: false } *)
| IntrospectionUncaught.

(** [scopes.join(' ')] *)
Definition join_scopes (scopes : list string) : string := String.concat " " scopes.

(** [if (token)]: a string that is present and not empty. *)
Definition truthy (token : option string) : option string :=
  match token with
  | Some "" => None
  | other => other
  end.

(** The handler of [tokenIntrospectionEndpoint]; [req_user] is the
    authenticated client. [typeof null] is ['object'], so a token whose client
    does not resolve reaches [.id]. *)
Definition tokenIntrospectionEndpoint (req_user : Client) (req_body_token : option string)
    (st : Store) : IntrospectionResponse :=
  match truthy req_body_token with
  | Some token =>
    match accessTokenModel.findOne_value token st with
    | Some accessToken =>
      match clientModel.findById (accessToken_clientId accessToken) st with
      | None => IntrospectionUncaught
      | Some populatedClient =>
        if client_id populatedClient =? client_id req_user then
          Active (client_id populatedClient)
                 (join_scopes (accessToken_scopes accessToken))
                 (accessToken_expireAt accessToken)
                 (match accessToken_userId accessToken with
                  | Some uid => option_map user_name (userModel.findById uid st)
                  | None => None
                  end)
        else Inactive
      end
    | None => Inactive
    end
  | None => Inactive
  end.

(** Modelled from the spec: the time-to-live of access tokens is declared in
    [accessToken.model], which is not among the sources. Expiry is a deletion
    done by the store: once the clock passes [expireAt] the document is gone. *)
Definition expireAccessTokens (now : Z) (st : Store) : Store :=
  accessTokenModel.set (filter (fun t => (now <? accessToken_expireAt t)%Z) (accessTokens st)) st.

(** ** Client (de)serialisation: the pair handed to [callback(err, value)] *)

Definition serializeClient (client : Client) : option Err * string :=
  (None, client_id client).

Definition deserializeClient (id : string) (st : Store) : option Err * option Client :=
  (None, clientModel.findOne_id id st).

(** What loading the transaction of an authorization in flight ends in: an
    error handed to [next], or the transaction with its client. *)
Inductive Transaction :=
| TransactionError (e : Err)
| TransactionLoaded (client : Client).

(** Modelled from the spec: the loader of the transaction in flight belongs to
    the OAuth2 server library and is not among the sources; it hands the
    client id kept in the session to [deserializeClient]. The spec has a
    client that is not found on deserialize be a hard error for that
    transaction; a deserializer reports that case by calling back with no
    error and no client. An error handed to the callback is passed on. *)
Definition loadTransaction (id : string) (st : Store) : Transaction :=
  match deserializeClient id st with
  | (Some e, _) => TransactionError e
  | (None, None) => TransactionError (NewError "Unauthorized client")
  | (None, Some client) => TransactionLoaded client
  end.

(** ** Requests in flight

    Node runs one handler until its next [await]; between two awaits of one
    request the awaits of another may run. A request in flight is the await
    it is suspended at together with the locals it holds; one step runs the
    awaited store operation and the code up to the next await. The [findOne]
    with its [populate] is taken as one step. *)

Inductive CodeTask :=
| CodeFindOne
| CodeRemove (authCode : AuthCode) (populated : Client)
| CodeSaveAccessToken (authCode : AuthCode) (populated : Client)
| CodeSaveRefreshToken (accessToken : AccessToken)
| CodeSettled (o : Outcome).

Definition code_step (env : Env) (client : Client) (code redirectUri : string)
    (t : CodeTask) (st : Store) : CodeTask * Store :=
  match t with
  | CodeFindOne =>
    match authCodeModel.findOne_value code st with
    | None => (CodeSettled DoneFalse, st)
    | Some authCode =>
      match clientModel.findById (authCode_clientId authCode) st with
      | None => (CodeSettled Uncaught, st)
      | Some populated =>
        if (client_id client =? client_id populated)
           && (redirectUri =? authCode_redirectUri authCode)
        then (CodeRemove authCode populated, st)
        else (CodeSettled DoneFalse, st)
      end
    end
  | CodeRemove authCode populated =>
    match authCodeModel.remove env authCode st with
    | (st', inl e) => (CodeSettled (DoneErr e), st')
    | (st', inr removed) => (CodeSaveAccessToken removed populated, st')
    end
  | CodeSaveAccessToken authCode populated =>
    match accessTokenModel.save env (code_accessToken env authCode populated) st with
    | (st', inl e) => (CodeSettled (DoneErr e), st')
    | (st', inr accessToken) => (CodeSaveRefreshToken accessToken, st')
    end
  | CodeSaveRefreshToken accessToken =>
    match refreshTokenModel.save env (paired_refreshToken env accessToken) st with
    | (st', inl e) => (CodeSettled (DoneErr e), st')
    | (st', inr refreshToken) =>
      (CodeSettled (DoneTokens (accessToken_value accessToken)
                               (Some (refreshToken_value refreshToken))
                               (accessToken_expireAt accessToken)), st')
    end
  | CodeSettled o => (CodeSettled o, st)
  end.

Inductive RefreshTask :=
| RefreshFindOne
| RefreshSaveAccessToken (refreshTokenDoc : RefreshToken) (old : AccessToken) (populated : Client)
| RefreshRemoveAccessToken (refreshTokenDoc : RefreshToken) (old : AccessToken)
                           (accessToken : AccessToken)
| RefreshRemoveRefreshToken (refreshTokenDoc : RefreshToken) (accessToken : AccessToken)
| RefreshSaveRefreshToken (accessToken : AccessToken)
| RefreshSettled (o : Outcome).

Definition refresh_step (env : Env) (client : Client) (refreshToken : string)
    (t : RefreshTask) (st : Store) : RefreshTask * Store :=
  match t with
  | RefreshFindOne =>
    match refreshTokenModel.findOne_value refreshToken st with
    | None => (RefreshSettled DoneFalse, st)
    | Some refreshTokenDoc =>
      match accessTokenModel.findById (refreshToken_accessTokenId refreshTokenDoc) st with
      | None => (RefreshSettled Uncaught, st)
      | Some old =>
        match clientModel.findById (accessToken_clientId old) st with
        | None => (RefreshSettled Uncaught, st)
        | Some populated =>
          if client_id populated =? client_id client
          then (RefreshSaveAccessToken refreshTokenDoc old populated, st)
          else (RefreshSettled DoneFalse, st)
        end
      end
    end
  | RefreshSaveAccessToken refreshTokenDoc old populated =>
    match accessTokenModel.save env (refreshed_accessToken env old populated) st with
    | (st', inl e) => (RefreshSettled (DoneErr e), st')
    | (st', inr accessToken) => (RefreshRemoveAccessToken refreshTokenDoc old accessToken, st')
    end
  | RefreshRemoveAccessToken refreshTokenDoc old accessToken =>
    match accessTokenModel.remove env old st with
    | (st', inl e) => (RefreshSettled (DoneErr e), st')
    | (st', inr _) => (RefreshRemoveRefreshToken refreshTokenDoc accessToken, st')
    end
  | RefreshRemoveRefreshToken refreshTokenDoc accessToken =>
    match refreshTokenModel.remove env refreshTokenDoc st with
    | (st', inl e) => (RefreshSettled (DoneErr e), st')
    | (st', inr _) => (RefreshSaveRefreshToken accessToken, st')
    end
  | RefreshSaveRefreshToken accessToken =>
    match refreshTokenModel.save env (paired_refreshToken env accessToken) st with
    | (st', inl e) => (RefreshSettled (DoneErr e), st')
    | (st', inr newRefreshToken) =>
      (RefreshSettled (DoneTokens (accessToken_value accessToken)
                                  (Some (refreshToken_value newRefreshToken))
                                  (accessToken_expireAt accessToken)), st')
    end
  | RefreshSettled o => (RefreshSettled o, st)
  end.

(** One request carried through [n] steps without another in between. *)
Fixpoint iterate {T : Type} (step : T -> Store -> T * Store) (n : nat) (t : T) (st : Store)
    : T * Store :=
  match n with
  | O => (t, st)
  | S n' => let (t', st') := step t st in iterate step n' t' st'
  end.

Section Interleaving.
Variable T : Type.
(** [step i] is the step of the [i]-th request. *)
Variable step : nat -> T -> Store -> T * Store.

Fixpoint set_nth (i : nat) (t : T) (tasks : list T) : list T :=
  match tasks, i with
  | [], _ => []
  | _ :: rest, O => t :: rest
  | t0 :: rest, S i' => t0 :: set_nth i' t rest
  end.

(** The event loop: [sched] names, in order, the request that takes the
    next step. *)
Fixpoint interleave (sched : list nat) (tasks : list T) (st : Store) : list T * Store :=
  match sched with
  | [] => (tasks, st)
  | i :: sched' =>
    match nth_error tasks i with
    | None => interleave sched' tasks st
    | Some t => let (t', st') := step i t st in
                interleave sched' (set_nth i t' tasks) st'
    end
  end.
End Interleaving.

Arguments set_nth {T} i t tasks.
Arguments interleave {T} step sched tasks st.

(** [done(null, accessToken, ...)] with a token: the exchange succeeded. *)
Definition issued (o : Outcome) : bool :=
  match o with DoneTokens _ _ _ => true | _ => false end.

Definition code_issued (t : CodeTask) : bool :=
  match t with CodeSettled o => issued o | _ => false end.

Definition refresh_issued (t : RefreshTask) : bool :=
  match t with RefreshSettled o => issued o | _ => false end.

(** C2 as the spec words it: however the requests that present one code
    value (one refresh token value) are interleaved, at most one of them is
    handed tokens. *)
Definition single_use_when_interleaved : Prop :=
  (forall (envs : nat -> Env) client code redirectUri sched n st,
     (List.length
        (filter code_issued
           (fst (interleave (fun i => code_step (envs i) client code redirectUri)
                            sched (repeat CodeFindOne n) st))) <= 1)%nat) /\
  (forall (envs : nat -> Env) client refreshToken sched n st,
     (List.length
        (filter refresh_issued
           (fst (interleave (fun i => refresh_step (envs i) client refreshToken)
                            sched (repeat RefreshFindOne n) st))) <= 1)%nat).

(** ** Requests one after another *)

Record CodeRequest := {
  cr_env : Env; cr_client : Client; cr_redirectUri : string
}.

Record RefreshRequest := {
  rr_env : Env; rr_client : Client; rr_scope : list string
}.

(** Requests served one after another, each handler run to its end before
    the next starts. *)
Fixpoint one_after_another {R : Type} (run : R -> Store -> Outcome * Store)
    (reqs : list R) (st : Store) : list Outcome * Store :=
  match reqs with
  | [] => ([], st)
  | r :: rest =>
    let (o, st') := run r st in
    let (os, st'') := one_after_another run rest st' in
    (o :: os, st'')
  end.

(** Exchanges of one code value. *)
Definition exchange_code_each (code : string) : list CodeRequest -> Store -> list Outcome * Store :=
  one_after_another
    (fun r => exchange_code (cr_env r) (cr_client r) code (cr_redirectUri r)).

(** Exchanges of one refresh token value. *)
Definition exchange_refreshToken_each (refreshToken : string)
    : list RefreshRequest -> Store -> list Outcome * Store :=
  one_after_another
    (fun r => exchange_refreshToken (rr_env r) (rr_client r) refreshToken (rr_scope r)).

(** ** Conditions and statements the theorems use *)

Definition all_writeOps : list WriteOp :=
  [AuthCodeSave; AuthCodeRemove; AccessTokenSave; AccessTokenRemove;
   RefreshTokenSave; RefreshTokenRemove].

(** No infrastructure failure during the request: no awaited write throws and
    the [_id]s mongoose draws for the new documents are not taken. *)
Definition store_accepts (env : Env) (st : Store) : bool :=
  forallb (fun op => negb (throws env op)) all_writeOps
  && negb (existsb (fun t => accessToken__id t =? new_accessToken_id env)%nat (accessTokens st))
  && negb (existsb (fun r => refreshToken__id r =? new_refreshToken_id env)%nat
                   (refreshTokens st)).

(** The three checks of the code exchange: the presented value names the
    code [authCode], the client it refers to is [holder] with the id of the
    requesting client, and the redirect uri is the stored one. *)
Definition code_checks (st : Store) (client : Client) (code redirectUri : string)
    (authCode : AuthCode) (holder : Client) : Prop :=
  authCodeModel.findOne_value code st = Some authCode /\
  clientModel.findById (authCode_clientId authCode) st = Some holder /\
  client_id holder = client_id client /\
  authCode_redirectUri authCode = redirectUri.

(** The presented value names the refresh token [doc], which resolves to the
    access token [old] and on to the client [holder], who has the id of the
    requesting client. *)
Definition refresh_checks (st : Store) (client : Client) (refreshToken : string)
    (doc : RefreshToken) (old : AccessToken) (holder : Client) : Prop :=
  refreshTokenModel.findOne_value refreshToken st = Some doc /\
  accessTokenModel.findById (refreshToken_accessTokenId doc) st = Some old /\
  clientModel.findById (accessToken_clientId old) st = Some holder /\
  client_id holder = client_id client.

(** C4 as the spec words it, for the client-credentials exchange: a
    secret that does not match is answered with [done(null, false)]. *)
Definition clientCredentials_secret_mismatch_rejects : Prop :=
  forall env client scope st doc,
    clientModel.findOne_id (client_id client) st = Some doc ->
    client_secret doc <> client_secret client ->
    fst (exchange_clientCredentials env client scope st) = DoneFalse.

(** The user [user] holds the token [t] for the client [client]. *)
Definition holds_token (client : Client) (user : User) (t : AccessToken) : Prop :=
  accessToken_clientId t = client__id client /\
  accessToken_userId t = Some (user__id user).

(** C8 as the spec words it: approval is immediate exactly when the user holds
    some access token for the client whose scopes are, as a set, the
    requested ones. *)
Definition immediate_iff_some_token_matches : Prop :=
  forall client user scope st,
    authorization_immediate client user scope st = true <->
    exists t, In t (accessTokens st) /\ holds_token client user t /\
              (forall s, In s (accessToken_scopes t) <-> In s scope).

(** The documents of a collection that carry the value [v]. *)
Definition holding {A : Type} (value : A -> string) (v : string) (l : list A) : list A :=
  filter (fun x => value x =? v) l.

(** ** Login form *)

(** What the handler reads of [req.session]. *)
Record Session := {
  session_returnTo : option string;
  session_messages : option (list string)
}.

(** [errorMessage]: [null], or [messages[0]], which is [undefined] for an
    empty array. *)
Inductive ErrorMessage :=
| MessageNull
| MessageUndefined
| Message (text : string).

Inductive LoginForm :=
| LoginThrows (message : string)                  (* throw new Error(message) *)
| LoginRender (errorMessage : ErrorMessage).      (* res.render('login', { errorMessage }) *)

Definition notPermitted : string := "Authentication without OAuth2 flow is not permitted!".

Definition isTruthy (v : option string) : bool :=
  match truthy v with Some _ => true | None => false end.

(** [v.startsWith(p)] for a string [v] *)
Definition startsWith (v : option string) (p : string) : bool :=
  match v with Some s => String.prefix p s | None => false end.

(** [loginForm] *)
Definition loginForm (req_session : option Session) : LoginForm :=
  match req_session with
  | Some session =>
    if negb (isTruthy (session_returnTo session))
       || (isTruthy (session_returnTo session)
           && negb (startsWith (session_returnTo session) "/oauth2/authorize?"))
    then LoginThrows notPermitted
    else LoginRender
           match session_messages session with
           | Some [] => MessageUndefined
           | Some (first :: _) => Message first
           | None => MessageNull
           end
  | None => LoginRender MessageNull
  end.

(** ** Reference integrity *)

Definition isSome {A} (o : option A) : bool :=
  match o with Some _ => true | None => false end.

Fixpoint distinct (l : list ObjectId) : bool :=
  match l with
  | [] => true
  | x :: rest => negb (existsb (Nat.eqb x) rest) && distinct rest
  end.

(** Every [populate] of the controller finds its document: the client of
    each code and of each access token, the access token of each refresh
    token; and no two refresh tokens are paired with the same access token. *)
Definition references_resolve (st : Store) : bool :=
  forallb (fun a => isSome (clientModel.findById (authCode_clientId a) st)) (authCodes st)
  && forallb (fun t => isSome (clientModel.findById (accessToken_clientId t) st))
             (accessTokens st)
  && forallb (fun r => isSome (accessTokenModel.findById (refreshToken_accessTokenId r) st))
             (refreshTokens st)
  && distinct (map refreshToken_accessTokenId (refreshTokens st)).

(** [references_resolve], collection by collection. *)
Definition resolving (cs : list Client) (acs : list AuthCode) (ats : list AccessToken)
    (rts : list RefreshToken) : Prop :=
  (forall a, In a acs -> exists c, In c cs /\ client__id c = authCode_clientId a) /\
  (forall t, In t ats -> exists c, In c cs /\ client__id c = accessToken_clientId t) /\
  (forall r, In r rts ->
     exists t, In t ats /\ accessToken__id t = refreshToken_accessTokenId r) /\
  NoDup (map refreshToken_accessTokenId rts).

(** ** Awaits left *)

(** The awaited store operations a request in flight still has before it. *)
Definition code_remaining (t : CodeTask) : nat :=
  match t with
  | CodeFindOne => 4
  | CodeRemove _ _ => 3
  | CodeSaveAccessToken _ _ => 2
  | CodeSaveRefreshToken _ => 1
  | CodeSettled _ => 0
  end.

Definition refresh_remaining (t : RefreshTask) : nat :=
  match t with
  | RefreshFindOne => 5
  | RefreshSaveAccessToken _ _ _ => 4
  | RefreshRemoveAccessToken _ _ _ => 3
  | RefreshRemoveRefreshToken _ _ => 2
  | RefreshSaveRefreshToken _ => 1
  | RefreshSettled _ => 0
  end.

(** ** The helpers of the test suite

    Plain JavaScript data: a value is a string, an array, or anything else
    (numbers, booleans, [null], [undefined], plain objects), of which the
    helpers only observe that it is neither a string nor an array and has no
    [toLowerCase]. An object is the list of its own properties in the order of
    [Object.keys]. *)

#[warnings="-register-all"]
Inductive JsValue :=
| JsString (s : string)
| JsArray (items : list JsValue)
| JsUndefined
| JsOther (tag : nat).

Definition JsObject := list (string * JsValue).

Definition Object_keys (obj : JsObject) : list string := map fst obj.

(** [obj[key]] *)
Definition get (key : string) (obj : JsObject) : JsValue :=
  match find (fun kv => fst kv =? key) obj with
  | Some kv => snd kv
  | None => JsUndefined
  end.

(** [obj[key] = v]: an own property keeps its place, a new one comes last *)
Fixpoint assign (key : string) (v : JsValue) (obj : JsObject) : JsObject :=
  match obj with
  | [] => [(key, v)]
  | (k, w) :: rest => if k =? key then (k, v) :: rest else (k, w) :: assign key v rest
  end.

(** [`${index}`] *)
Definition decimal (index : nat) : string := NilEmpty.string_of_uint (Nat.to_uint index).

(** The inner loop of [dismantleNestedProperties], from [index] on:
    [destructiveObj[`${prop}.${key}[${index}]`] = obj[key][index]]. *)
Fixpoint dismantle_items (name : string) (index : nat) (items : list JsValue)
    (destructiveObj : JsObject) : JsObject :=
  match items with
  | [] => destructiveObj
  | item :: rest =>
    dismantle_items name (S index) rest
      (assign (name ++ "[" ++ decimal index ++ "]")%string item destructiveObj)
  end.

(** [dismantleNestedProperties] *)
Definition dismantleNestedProperties (prop : string) (obj : JsObject) : JsObject :=
  fold_left
    (fun destructiveObj key =>
       match get key obj with
       | JsArray items => dismantle_items (prop ++ "." ++ key)%string 0 items destructiveObj
       | v => assign (prop ++ "." ++ key)%string v destructiveObj
       end)
    (Object_keys obj) [].

(** What [lowerCasePropertiesValues] leaves: the object as mutated so far, and
    whether a [TypeError] ended the call ([toLowerCase] of a value that has
    none). Arrays held by different properties are taken to be different
    arrays; [lowerCasePropertiesValues_inPlace] does without that. *)
Record Lowered := { lowered_obj : JsObject; lowered_thrown : bool }.

Section LowerCase.
Variable toLowerCase : string -> string.

(** The loop over one array; [true] when an element that is not a string
    stopped it. *)
Fixpoint lower_items (items : list JsValue) : list JsValue * bool :=
  match items with
  | [] => ([], false)
  | JsString s :: rest =>
    let (rest', thrown) := lower_items rest in (JsString (toLowerCase s) :: rest', thrown)
  | other :: rest => (other :: rest, true)
  end.

(** [lowerCasePropertiesValues] *)
Fixpoint lowerCasePropertiesValues (props : list string) (obj : JsObject) : Lowered :=
  match props with
  | [] => {| lowered_obj := obj; lowered_thrown := false |}
  | prop :: rest =>
    match get prop obj with
    | JsArray items =>
      let (items', thrown) := lower_items items in
      if thrown
      then {| lowered_obj := assign prop (JsArray items') obj; lowered_thrown := true |}
      else lowerCasePropertiesValues rest (assign prop (JsArray items') obj)
    | JsString s => lowerCasePropertiesValues rest (assign prop (JsString (toLowerCase s)) obj)
    | _ => lowerCasePropertiesValues rest obj
    end
  end.
End LowerCase.

(** The properties [dismantleNestedProperties] writes, in the order it writes
    them. *)
Fixpoint indexed (name : string) (index : nat) (items : list JsValue) : JsObject :=
  match items with
  | [] => []
  | item :: rest =>
    ((name ++ "[" ++ decimal index ++ "]")%string, item) :: indexed name (S index) rest
  end.

Definition dismantled (prop : string) (obj : JsObject) : JsObject :=
  flat_map
    (fun kv =>
       match snd kv with
       | JsArray items => indexed (prop ++ "." ++ fst kv)%string 0 items
       | v => [((prop ++ "." ++ fst kv)%string, v)]
       end)
    obj.

Definition is_string (v : JsValue) : bool :=
  match v with JsString _ => true | _ => false end.

Definition is_array (v : JsValue) : bool :=
  match v with JsArray _ => true | _ => false end.

(** A value with its string, or the strings of its array, lower-cased. *)
Definition lower_value (toLowerCase : string -> string) (v : JsValue) : JsValue :=
  match v with
  | JsString s => JsString (toLowerCase s)
  | JsArray items =>
    JsArray (map (fun item => match item with
                              | JsString s => JsString (toLowerCase s)
                              | other => other
                              end) items)
  | other => other
  end.

(** Every array among the listed properties holds strings only. *)
Definition strings_only (props : list string) (obj : JsObject) : Prop :=
  forall prop items,
    In prop props -> get prop obj = JsArray items -> forallb is_string items = true.

(** The key has no ["["] in it. *)
Fixpoint bracket_free (key : string) : bool :=
  match key with
  | EmptyString => true
  | String c rest => negb (Ascii.eqb c "["%char) && bracket_free rest
  end.

(** What follows the key in a name that [dismantleNestedProperties] writes:
    nothing, or an index in brackets. *)
Definition name_tail (t : string) : Prop :=
  t = "" \/ exists rest, t = String "["%char rest.

(** ** [lowerCasePropertiesValues] on arrays that are shared

    [obj[prop][index] = ...] writes into the array that [obj[prop]] refers
    to, and [obj[prop]] itself is not assigned: a property that refers to the
    same array sees the write. Here the arrays live in a heap, and a property
    holds a string, the address of an array, or anything else. *)

Inductive RefValue :=
| RefString (s : string)
| RefArray (address : nat)
| RefUndefined
| RefOther (tag : nat).

Definition RefObject := list (string * RefValue).

Definition Heap := list (list JsValue).

(** the array at an address *)
Definition deref (heap : Heap) (address : nat) : list JsValue := nth address heap [].

(** [obj[key]] *)
Definition ref_get (key : string) (obj : RefObject) : RefValue :=
  match find (fun kv => fst kv =? key) obj with
  | Some kv => snd kv
  | None => RefUndefined
  end.

(** [obj[key] = v] *)
Fixpoint ref_assign (key : string) (v : RefValue) (obj : RefObject) : RefObject :=
  match obj with
  | [] => [(key, v)]
  | (k, w) :: rest => if k =? key then (k, v) :: rest else (k, w) :: ref_assign key v rest
  end.

(** What [lowerCasePropertiesValues] leaves: the object, the arrays, and
    whether a [TypeError] ended the call. *)
Record LoweredInPlace := {
  inPlace_obj : RefObject;
  inPlace_heap : Heap;
  inPlace_thrown : bool
}.

(** [lowerCasePropertiesValues], the arrays written in place *)
Fixpoint lowerCasePropertiesValues_inPlace (toLowerCase : string -> string)
    (props : list string) (obj : RefObject) (heap : Heap) : LoweredInPlace :=
  match props with
  | [] => {| inPlace_obj := obj; inPlace_heap := heap; inPlace_thrown := false |}
  | prop :: rest =>
    match ref_get prop obj with
    | RefArray address =>
      let (items', thrown) := lower_items toLowerCase (deref heap address) in
      if thrown
      then {| inPlace_obj := obj; inPlace_heap := set_nth address items' heap;
              inPlace_thrown := true |}
      else lowerCasePropertiesValues_inPlace toLowerCase rest obj
             (set_nth address items' heap)
    | RefString s =>
      lowerCasePropertiesValues_inPlace toLowerCase rest
        (ref_assign prop (RefString (toLowerCase s)) obj) heap
    | _ => lowerCasePropertiesValues_inPlace toLowerCase rest obj heap
    end
  end.

(** A value as a reader finds it: an array by its elements. *)
Definition read_value (heap : Heap) (v : RefValue) : JsValue :=
  match v with
  | RefString s => JsString s
  | RefArray address => JsArray (deref heap address)
  | RefUndefined => JsUndefined
  | RefOther tag => JsOther tag
  end.

(** The object as a reader finds it. *)
Definition read (heap : Heap) (obj : RefObject) : JsObject :=
  map (fun kv => (fst kv, read_value heap (snd kv))) obj.

(** The addresses the properties hold, one entry for each property that holds
    an array. *)
Definition addresses (obj : RefObject) : list nat :=
  flat_map (fun kv => match snd kv with RefArray address => [address] | _ => [] end) obj.

(** No array is held by two properties, and every address is one of the
    heap's. *)
Definition unshared (obj : RefObject) (heap : Heap) : Prop :=
  NoDup (addresses obj) /\
  forall address, In address (addresses obj) -> address < List.length heap.


(** ** Sample data *)

Module Sample.
Definition c1 : Client :=
  {| client__id := 1; client_id := "c1"; client_secret := "s3cret";
     client_redirectUris := ["https://app/cb"]; client_scopes := ["read"] |}.
Definition c2 : Client :=
  {| client__id := 2; client_id := "c2"; client_secret := "other";
     client_redirectUris := ["https://two/cb"]; client_scopes := [] |}.
Definition u1 : User :=
  {| user__id := 10; user_email := "u1@example.org"; user_name := "u1";
     user_password := "hunter2" |}.
Definition registry : Store :=
  {| clients := [c1; c2]; users := [u1]; authCodes := []; accessTokens := [];
     refreshTokens := [] |}.
(** the [n]-th request draws these *)
Definition env (n : nat) : Env :=
  {| authCodeValue := String.concat "" (repeat "c" (S n));
     accessTokenValue := String.concat "" (repeat "a" (S n));
     refreshTokenValue := String.concat "" (repeat "r" (S n));
     new_authCode_id := 100 + n;
     new_accessToken_id := 200 + n;
     new_refreshToken_id := 300 + n;
     expireAt := 180000 + Z.of_nat n;
     throws := fun _ => false |}.
(** a hash function that is the identity, for the examples *)
Definition plain (password hash : string) : bool := password =? hash.

Definition cb : string := "https://app/cb".
(** [u1] has granted [c1] the code ["c"] for the scope [read] ... *)
Definition granted : Store := snd (grant_code (env 0) c1 cb u1 ["read"] registry).
(** ... and [c1] has exchanged it: access token ["aa"], refresh token ["rr"]. *)
Definition exchanged : Store := snd (exchange_code (env 1) c1 "c" cb granted).
(** [c2] presenting a secret that is not the registered one *)
Definition c2_wrong_secret : Client :=
  {| client__id := 2; client_id := "c2"; client_secret := "guess";
     client_redirectUris := ["https://two/cb"]; client_scopes := [] |}.
(** [u1] holds two tokens for [c1]: for [read], and for [read write] *)
Definition two_tokens : Store :=
  snd (exchange_password plain (env 2) c1 "u1@example.org" "hunter2" ["read"; "write"]
         exchanged).

Definition the_code : AuthCode :=
  {| authCode__id := 100; authCode_value := "c"; authCode_clientId := 1;
     authCode_userId := 10; authCode_redirectUri := cb; authCode_scopes := ["read"] |}.

Definition the_accessToken : AccessToken :=
  {| accessToken__id := 201; accessToken_value := "aa"; accessToken_clientId := 1;
     accessToken_userId := Some 10; accessToken_scopes := ["read"];
     accessToken_grantType := "code"; accessToken_expireAt := 180001 |}.

Definition the_refreshToken : RefreshToken :=
  {| refreshToken__id := 301; refreshToken_value := "rr";
     refreshToken_accessTokenId := 201 |}.

Definition code_request (n : nat) : CodeRequest :=
  {| cr_env := env n; cr_client := c1; cr_redirectUri := cb |}.
End Sample.

(** ** More sample data *)

Module Fixtures.
(** the driver refuses to remove refresh tokens during this request *)
Definition remove_fails : Env :=
  {| authCodeValue := "cccc"; accessTokenValue := "aaaa"; refreshTokenValue := "rrrr";
     new_authCode_id := 103; new_accessToken_id := 203; new_refreshToken_id := 303;
     expireAt := 180003;
     throws := fun op => match op with RefreshTokenRemove => true | _ => false end |}.

(** the store after [c1]'s refresh exchange of ["rr"] stopped at
    [refreshTokenDoc.remove()]: the refresh token is stored, its access token
    is not *)
Definition half_done : Store :=
  snd (exchange_refreshToken remove_fails Sample.c1 "rr" [] Sample.exchanged).

(** the store after the access token ["aa"] has expired *)
Definition expired : Store := expireAccessTokens 180001 Sample.exchanged.

(** a session that came from the authorization route after a failed login *)
Definition from_authorize : Session :=
  {| session_returnTo := Some "/oauth2/authorize?client_id=c1";
     session_messages := Some ["Incorrect email or password"] |}.

(** the ASCII part of [toLowerCase], for the examples *)
Definition lower_char (c : ascii) : ascii :=
  let n := nat_of_ascii c in
  if (65 <=? n)%nat && (n <=? 90)%nat then ascii_of_nat (n + 32) else c.

Fixpoint lower_ascii (s : string) : string :=
  match s with
  | EmptyString => EmptyString
  | String c rest => String (lower_char c) (lower_ascii rest)
  end.

Definition profile : JsObject :=
  [("name", JsString "Bob"); ("tags", JsArray [JsString "Admin"; JsString "QA"]);
   ("age", JsOther 42)].

Definition mixed : JsObject :=
  [("name", JsString "Bob"); ("tags", JsArray [JsString "Admin"; JsOther 7])].

(** [tags] and [labels] are one array, [roles] is another *)
Definition aliased : RefObject :=
  [("name", RefString "Bob"); ("tags", RefArray 0); ("labels", RefArray 0);
   ("roles", RefArray 1); ("age", RefOther 42)].

Definition aliased_heap : Heap :=
  [[JsString "Admin"; JsString "QA"]; [JsString "Owner"]].

(** [profile] with its array in a heap *)
Definition profile_refs : RefObject :=
  [("name", RefString "Bob"); ("tags", RefArray 0); ("age", RefOther 42)].

Definition profile_heap : Heap := [[JsString "Admin"; JsString "QA"]].
End Fixtures.

(** * Properties *)

(** ** The store operations *)

Lemma store_accepts_throws env st op :
  store_accepts env st = true -> throws env op = false.
Proof.
  unfold store_accepts. rewrite !andb_true_iff. intros [[H _] _].
  rewrite forallb_forall in H.
  assert (Hin : In op all_writeOps) by (destruct op; simpl; tauto).
  apply H in Hin. now apply negb_true_iff in Hin.
Qed.

Lemma store_accepts_accessToken_id env st :
  store_accepts env st = true ->
  existsb (fun t => accessToken__id t =? new_accessToken_id env)%nat (accessTokens st) = false.
Proof.
  unfold store_accepts. rewrite !andb_true_iff. intros [[_ H] _].
  now apply negb_true_iff in H.
Qed.

Lemma store_accepts_refreshToken_id env st :
  store_accepts env st = true ->
  existsb (fun r => refreshToken__id r =? new_refreshToken_id env)%nat (refreshTokens st) = false.
Proof.
  unfold store_accepts. rewrite !andb_true_iff. intros [_ H].
  now apply negb_true_iff in H.
Qed.

Lemma findById_client__id _id st c :
  clientModel.findById _id st = Some c -> client__id c = _id.
Proof.
  unfold clientModel.findById. intros H. apply find_some in H.
  now apply Nat.eqb_eq.
Qed.

Lemma findOne_authCode_value code st a :
  authCodeModel.findOne_value code st = Some a ->
  In a (authCodes st) /\ authCode_value a = code.
Proof.
  unfold authCodeModel.findOne_value. intros H. apply find_some in H.
  destruct H as [Hin Hv]. split; [assumption | now apply String.eqb_eq].
Qed.

Lemma findOne_refreshToken_value v st r :
  refreshTokenModel.findOne_value v st = Some r ->
  In r (refreshTokens st) /\ refreshToken_value r = v.
Proof.
  unfold refreshTokenModel.findOne_value. intros H. apply find_some in H.
  destruct H as [Hin Hv]. split; [assumption | now apply String.eqb_eq].
Qed.

Lemma findById_accessToken _id st t :
  accessTokenModel.findById _id st = Some t ->
  In t (accessTokens st) /\ accessToken__id t = _id.
Proof.
  unfold accessTokenModel.findById. intros H. apply find_some in H.
  destruct H as [Hin Hv]. split; [assumption | now apply Nat.eqb_eq].
Qed.

(** Membership after [doc.remove()]: everything but the documents with the
    removed [_id]. *)
Lemma in_remove_by_id {A} (key : A -> ObjectId) (_id : ObjectId) (l : list A) x :
  In x (filter (fun y => negb (key y =? _id)%nat) l) <-> In x l /\ key x <> _id.
Proof.
  rewrite filter_In, negb_true_iff, Nat.eqb_neq. tauto.
Qed.

(** Unfolds one [try] block completely. *)
Ltac store_simpl :=
  cbn [authCodes accessTokens refreshTokens clients users
       authCodeModel.set accessTokenModel.set refreshTokenModel.set
       accessToken__id refreshToken__id authCode__id
       code_accessToken paired_refreshToken refreshed_accessToken orb].

Ltac run_try :=
  unfold try_catch, bind, ret,
    authCodeModel.save, authCodeModel.remove,
    accessTokenModel.save, accessTokenModel.remove,
    refreshTokenModel.save, refreshTokenModel.remove;
  store_simpl.

(** Case analysis on the duplicate-[_id] test of the next [save]. *)
Ltac case_duplicate H :=
  match goal with
  | |- context [existsb ?f ?l] => destruct (existsb f l) eqn:H
  end.

(** Decides the writes of a [try] block from [store_accepts]. *)
Ltac accept_writes Hok :=
  repeat first
    [ rewrite (store_accepts_throws _ _ AuthCodeSave Hok)
    | rewrite (store_accepts_throws _ _ AuthCodeRemove Hok)
    | rewrite (store_accepts_throws _ _ AccessTokenSave Hok)
    | rewrite (store_accepts_throws _ _ AccessTokenRemove Hok)
    | rewrite (store_accepts_throws _ _ RefreshTokenSave Hok)
    | rewrite (store_accepts_throws _ _ RefreshTokenRemove Hok)
    | rewrite (store_accepts_accessToken_id _ _ Hok)
    | rewrite (store_accepts_refreshToken_id _ _ Hok)
    | progress store_simpl ].

(** ** Authorization-code exchange *)

Lemma exchange_code_cases env client code redirectUri st :
  (authCodeModel.findOne_value code st = None /\
   exchange_code env client code redirectUri st = (DoneFalse, st)) \/
  (exists authCode,
     authCodeModel.findOne_value code st = Some authCode /\
     clientModel.findById (authCode_clientId authCode) st = None /\
     exchange_code env client code redirectUri st = (Uncaught, st)) \/
  (exists authCode holder,
     authCodeModel.findOne_value code st = Some authCode /\
     clientModel.findById (authCode_clientId authCode) st = Some holder /\
     (client_id holder <> client_id client \/ authCode_redirectUri authCode <> redirectUri) /\
     exchange_code env client code redirectUri st = (DoneFalse, st)) \/
  (exists authCode holder,
     code_checks st client code redirectUri authCode holder /\
     exchange_code env client code redirectUri st =
     try_catch
       (removed <- await authCodeModel.remove env authCode ;;
        accessToken <- await accessTokenModel.save env
                         (code_accessToken env removed holder) ;;
        refreshToken <- await refreshTokenModel.save env
                          (paired_refreshToken env accessToken) ;;
        ret (DoneTokens (accessToken_value accessToken)
                        (Some (refreshToken_value refreshToken))
                        (accessToken_expireAt accessToken))) st).
Proof.
  unfold exchange_code, code_checks.
  destruct (authCodeModel.findOne_value code st) as [authCode|] eqn:Hfind; [|now left].
  right.
  destruct (clientModel.findById (authCode_clientId authCode) st) as [holder|] eqn:Hpop;
    [|left; now exists authCode].
  right.
  destruct (String.eqb_spec (client_id client) (client_id holder)) as [Hid|Hid];
    destruct (String.eqb_spec redirectUri (authCode_redirectUri authCode)) as [Huri|Huri];
    cbn [andb].
  - right. exists authCode, holder. repeat split; auto.
  - left. exists authCode, holder. repeat split; auto.
  - left. exists authCode, holder. repeat split; auto.
  - left. exists authCode, holder. repeat split; auto.
Qed.

(** C1. The authorization-code exchange hands out tokens only when the three
    checks hold (a code with the presented value exists, the client it refers
    to has the requesting client's id, the redirect uri of the request is the
    stored one), and then the code is deleted, an access token with grant type
    [code] and the code's user, client and scopes is stored, and a refresh
    token paired with it is stored and returned. When the checks hold and the
    store accepts the writes the exchange does hand out tokens. When no code
    has the value, or the client or the redirect uri differs, the handler
    calls [done(null, false)] and leaves the store as it was. *)
Theorem exchange_code_correct env client code redirectUri st :
  (forall a r e st',
     exchange_code env client code redirectUri st = (DoneTokens a r e, st') ->
     exists authCode holder accessToken refreshToken,
       code_checks st client code redirectUri authCode holder /\
       (forall x, In x (authCodes st') <->
                  In x (authCodes st) /\ authCode__id x <> authCode__id authCode) /\
       accessTokens st' = accessTokens st ++ [accessToken] /\
       accessToken_value accessToken = a /\
       accessToken_grantType accessToken = "code" /\
       accessToken_userId accessToken = Some (authCode_userId authCode) /\
       accessToken_clientId accessToken = authCode_clientId authCode /\
       accessToken_scopes accessToken = authCode_scopes authCode /\
       refreshTokens st' = refreshTokens st ++ [refreshToken] /\
       refreshToken_accessTokenId refreshToken = accessToken__id accessToken /\
       r = Some (refreshToken_value refreshToken) /\
       clients st' = clients st /\ users st' = users st) /\
  (forall authCode holder,
     code_checks st client code redirectUri authCode holder ->
     store_accepts env st = true ->
     exists st',
       exchange_code env client code redirectUri st =
       (DoneTokens (accessTokenValue env) (Some (refreshTokenValue env)) (expireAt env), st')) /\
  (authCodeModel.findOne_value code st = None ->
     exchange_code env client code redirectUri st = (DoneFalse, st)) /\
  (forall authCode holder,
     authCodeModel.findOne_value code st = Some authCode ->
     clientModel.findById (authCode_clientId authCode) st = Some holder ->
     client_id holder <> client_id client \/ authCode_redirectUri authCode <> redirectUri ->
     exchange_code env client code redirectUri st = (DoneFalse, st)).
Proof.
  destruct (exchange_code_cases env client code redirectUri st)
    as [[Hnone Hres] | [(ac & Hfind & Hpop & Hres) | [(ac & h & Hfind & Hpop & Hne & Hres)
       | (ac & h & Hchk & Hres)]]]; rewrite Hres; clear Hres.
  - repeat split; try discriminate; auto.
    intros ac h (Hf & _). congruence.
  - repeat split; try discriminate; try congruence.
    intros ? ? (Hf & Hp & _). congruence.
  - repeat split; try discriminate; auto.
    intros ac' h' (Hf & Hp & Hid & Huri).
    assert (ac' = ac) by congruence. subst ac'.
    assert (h' = h) by congruence. subst h'. tauto.
  - assert (Hchk' := Hchk). destruct Hchk' as (Hfind & Hpop & Hid & Huri).
    split; [|split; [|split]].
    + intros a r e st'. run_try.
      destruct (throws env AuthCodeRemove); [discriminate|].
      destruct (throws env AccessTokenSave || _); [discriminate|].
      cbn [accessToken__id code_accessToken paired_refreshToken refreshToken__id].
      destruct (throws env RefreshTokenSave || _); [discriminate|].
      intros Heq. injection Heq as Ha Hr He Hst. subst a r e st'.
      exists ac, h, (code_accessToken env ac h),
        (paired_refreshToken env (code_accessToken env ac h)).
      cbn. split; [exact Hchk|].
      split; [intros x; apply (in_remove_by_id authCode__id)|].
      repeat split; auto.
      eapply findById_client__id; eauto.
    + intros ac' h' _ Hok. run_try.
      accept_writes Hok.
      eexists. reflexivity.
    + congruence.
    + intros ac' h' Hf Hp Hne.
      assert (ac' = ac) by congruence. subst ac'.
      assert (h' = h) by congruence. subst h'. tauto.
Qed.

(** ** Refresh-token exchange *)

Lemma exchange_refreshToken_cases env client refreshToken scope st :
  (refreshTokenModel.findOne_value refreshToken st = None /\
   exchange_refreshToken env client refreshToken scope st = (DoneFalse, st)) \/
  (exists doc,
     refreshTokenModel.findOne_value refreshToken st = Some doc /\
     (accessTokenModel.findById (refreshToken_accessTokenId doc) st = None \/
      exists old,
        accessTokenModel.findById (refreshToken_accessTokenId doc) st = Some old /\
        clientModel.findById (accessToken_clientId old) st = None) /\
     exchange_refreshToken env client refreshToken scope st = (Uncaught, st)) \/
  (exists doc old holder,
     refreshTokenModel.findOne_value refreshToken st = Some doc /\
     accessTokenModel.findById (refreshToken_accessTokenId doc) st = Some old /\
     clientModel.findById (accessToken_clientId old) st = Some holder /\
     client_id holder <> client_id client /\
     exchange_refreshToken env client refreshToken scope st = (DoneFalse, st)) \/
  (exists doc old holder,
     refresh_checks st client refreshToken doc old holder /\
     exchange_refreshToken env client refreshToken scope st =
     try_catch
       (accessToken <- await accessTokenModel.save env
                         (refreshed_accessToken env old holder) ;;
        _ <- await accessTokenModel.remove env old ;;
        _ <- await refreshTokenModel.remove env doc ;;
        newRefreshToken <- await refreshTokenModel.save env
                             (paired_refreshToken env accessToken) ;;
        ret (DoneTokens (accessToken_value accessToken)
                        (Some (refreshToken_value newRefreshToken))
                        (accessToken_expireAt accessToken))) st).
Proof.
  unfold exchange_refreshToken, refresh_checks.
  destruct (refreshTokenModel.findOne_value refreshToken st) as [doc|]; [|now left].
  right.
  destruct (accessTokenModel.findById (refreshToken_accessTokenId doc) st) as [old|] eqn:Hold;
    [|left; exists doc; auto].
  destruct (clientModel.findById (accessToken_clientId old) st) as [holder|] eqn:Hpop.
  - right.
    destruct (String.eqb_spec (client_id holder) (client_id client)) as [Hid|Hid].
    + right. exists doc, old, holder. rewrite Hold, Hpop. auto.
    + left. exists doc, old, holder. rewrite Hold, Hpop. auto.
  - left. exists doc. rewrite Hold. repeat split; auto.
    right. exists old. auto.
Qed.

Lemma existsb_id_false {A} (key : A -> ObjectId) (_id : ObjectId) (l : list A) x :
  existsb (fun y => key y =? _id)%nat l = false -> In x l -> key x <> _id.
Proof.
  intros Hex Hin Heq.
  assert (existsb (fun y => key y =? _id)%nat l = true); [|congruence].
  apply existsb_exists. exists x. split; [assumption | now apply Nat.eqb_eq].
Qed.

(** X20. When the refresh-token exchange hands out tokens, the presented
    refresh token existed and resolved to a client with the requesting
    client's id; the new access token has the user, client, scopes and grant
    type of the old one; the old access token and the old refresh token are no
    longer stored; the new refresh token refers to the new access token; both
    new values are returned. When the checks hold and the store accepts the
    writes, tokens are handed out. When no refresh token has the value, or
    the refresh token's access token and that token's client are stored and
    the client's id differs, the handler calls [done(null, false)] and the
    store is as it was. *)
Theorem exchange_refreshToken_correct env client refreshToken scope st :
  (forall a r e st',
     exchange_refreshToken env client refreshToken scope st = (DoneTokens a r e, st') ->
     exists doc old holder accessToken newRefreshToken,
       refresh_checks st client refreshToken doc old holder /\
       accessToken_value accessToken = a /\
       accessToken_userId accessToken = accessToken_userId old /\
       accessToken_clientId accessToken = accessToken_clientId old /\
       accessToken_scopes accessToken = accessToken_scopes old /\
       accessToken_grantType accessToken = accessToken_grantType old /\
       (forall x, In x (accessTokens st') <->
                  (In x (accessTokens st) /\ accessToken__id x <> accessToken__id old)
                  \/ x = accessToken) /\
       ~ In old (accessTokens st') /\
       (forall x, In x (refreshTokens st') <->
                  (In x (refreshTokens st) /\ refreshToken__id x <> refreshToken__id doc)
                  \/ x = newRefreshToken) /\
       ~ In doc (refreshTokens st') /\
       refreshToken_accessTokenId newRefreshToken = accessToken__id accessToken /\
       r = Some (refreshToken_value newRefreshToken) /\
       authCodes st' = authCodes st /\ clients st' = clients st /\ users st' = users st) /\
  (forall doc old holder,
     refresh_checks st client refreshToken doc old holder ->
     store_accepts env st = true ->
     exists st',
       exchange_refreshToken env client refreshToken scope st =
       (DoneTokens (accessTokenValue env) (Some (refreshTokenValue env)) (expireAt env), st')) /\
  (refreshTokenModel.findOne_value refreshToken st = None ->
     exchange_refreshToken env client refreshToken scope st = (DoneFalse, st)) /\
  (forall doc old holder,
     refreshTokenModel.findOne_value refreshToken st = Some doc ->
     accessTokenModel.findById (refreshToken_accessTokenId doc) st = Some old ->
     clientModel.findById (accessToken_clientId old) st = Some holder ->
     client_id holder <> client_id client ->
     exchange_refreshToken env client refreshToken scope st = (DoneFalse, st)).
Proof.
  destruct (exchange_refreshToken_cases env client refreshToken scope st)
    as [[Hnone Hres] | [(doc & Hfind & Hdang & Hres)
       | [(doc & old & h & Hfind & Hold & Hpop & Hne & Hres)
       | (doc & old & h & Hchk & Hres)]]]; rewrite Hres; clear Hres.
  - repeat split; try discriminate; auto.
    intros ? ? ? (Hf & _). congruence.
  - repeat split; try discriminate; try congruence.
    + intros ? ? ? (Hf & Ho & Hp & _).
      destruct Hdang as [Hd | (old' & Hd & Hd')]; congruence.
    + intros doc' old' h' Hf Ho Hp.
      destruct Hdang as [Hd | (old'' & Hd & Hd')]; congruence.
  - repeat split; try discriminate; auto.
    intros doc' old' h' (Hf & Ho & Hp & Hid).
    assert (doc' = doc) by congruence. subst doc'.
    assert (old' = old) by congruence. subst old'.
    assert (h' = h) by congruence. subst h'. contradiction.
  - assert (Hchk' := Hchk). destruct Hchk' as (Hfind & Hold & Hpop & Hid).
    destruct (findById_accessToken _ _ _ Hold) as [Hold_in Hold_id].
    split; [|split; [|split]].
    + intros a r e st'. run_try.
      destruct (throws env AccessTokenSave); cbn [orb]; [discriminate|].
      case_duplicate Hfresh; [discriminate|].
      destruct (throws env AccessTokenRemove); [discriminate|].
      destruct (throws env RefreshTokenRemove); store_simpl; [discriminate|].
      destruct (throws env RefreshTokenSave); cbn [orb]; [discriminate|].
      case_duplicate Hfresh'; [discriminate|].
      intros Heq. injection Heq as Ha Hr He Hst. subst a r e st'.
      assert (Hnew : new_accessToken_id env <> accessToken__id old).
      { intros Heq.
        apply (existsb_id_false accessToken__id (new_accessToken_id env) _ old Hfresh Hold_in).
        now symmetry. }
      exists doc, old, h, (refreshed_accessToken env old h),
        (paired_refreshToken env (refreshed_accessToken env old h)).
      cbn. split; [exact Hchk|].
      repeat split; auto.
      * eapply findById_client__id; eauto.
      * intros Hin. apply (in_remove_by_id accessToken__id) in Hin.
        destruct Hin as [Hin Hx]. apply in_app_or in Hin.
        destruct Hin as [Hin | [Hx' | []]]; [now left | right; now symmetry].
      * intros [[Hin Hx] | Hx]; apply (in_remove_by_id accessToken__id).
        -- split; [apply in_or_app; now left | assumption].
        -- subst x. split; [apply in_or_app; right; now left | exact Hnew].
      * intros Hin. apply (in_remove_by_id accessToken__id) in Hin. tauto.
      * intros Hin. apply in_app_or in Hin.
        destruct Hin as [Hin | [Hx | []]]; [left | right; now symmetry].
        now apply (in_remove_by_id refreshToken__id) in Hin.
      * intros [Hin | Hx]; apply in_or_app.
        -- left. now apply (in_remove_by_id refreshToken__id).
        -- right. left. now symmetry.
      * intros Hin. apply in_app_or in Hin.
        destruct Hin as [Hin | [Hx | []]].
        -- apply (in_remove_by_id refreshToken__id) in Hin. tauto.
        -- apply Hnew. rewrite Hold_id, <- Hx. reflexivity.
    + intros doc' old' h' _ Hok. run_try.
      accept_writes Hok.
      case_duplicate Hex.
      * exfalso. apply existsb_exists in Hex. destruct Hex as (x & Hin & Hx).
        apply (in_remove_by_id refreshToken__id) in Hin. destruct Hin as [Hin _].
        apply Nat.eqb_eq in Hx.
        exact (existsb_id_false refreshToken__id (new_refreshToken_id env) _ x
                 (store_accepts_refreshToken_id _ _ Hok) Hin Hx).
      * eexists. reflexivity.
    + congruence.
    + intros doc' old' h' Hf Ho Hp Hne.
      assert (doc' = doc) by congruence. subst doc'.
      assert (old' = old) by congruence. subst old'.
      assert (h' = h) by congruence. subst h'. contradiction.
Qed.

(** C3. The rejection is missed when the refresh token's access token is no
    longer stored. The refresh exchange of [c1] stopped at
    [refreshTokenDoc.remove()]: the refresh token ["rr"] is stored, its
    access token is not. [c2], which is not the client the token was issued
    to and had [done(null, false)] before, presents ["rr"]: the handler reads
    [clientId] of the [null] that [populate] left, outside its [try], and
    [done] is never called. The same when the access token has expired, and
    when [c2] asks between the two removals of [c1]'s exchange. *)
Theorem refresh_mismatch_uncaught :
  exchange_refreshToken (Sample.env 4) Sample.c2 "rr" [] Sample.exchanged
  = (DoneFalse, Sample.exchanged) /\
  exchange_refreshToken Fixtures.remove_fails Sample.c1 "rr" [] Sample.exchanged
  = (DoneErr (StoreError RefreshTokenRemove), Fixtures.half_done) /\
  refreshTokenModel.findOne_value "rr" Fixtures.half_done = Some Sample.the_refreshToken /\
  (forall doc old holder,
     ~ refresh_checks Fixtures.half_done Sample.c2 "rr" doc old holder) /\
  exchange_refreshToken (Sample.env 4) Sample.c2 "rr" [] Fixtures.half_done
  = (Uncaught, Fixtures.half_done) /\
  exchange_refreshToken (Sample.env 4) Sample.c2 "rr" [] Fixtures.expired
  = (Uncaught, Fixtures.expired) /\
  fst (interleave
         (fun i => refresh_step (Sample.env (2 + i))
                     (if (i =? 0)%nat then Sample.c1 else Sample.c2) "rr")
         [0; 0; 0; 1; 0; 0] [RefreshFindOne; RefreshFindOne] Sample.exchanged)
  = [RefreshSettled (DoneTokens "aaa" (Some "rrr") 180002); RefreshSettled Uncaught].
Proof.
  split; [reflexivity|]. split; [reflexivity|]. split; [reflexivity|].
  split; [|repeat split; reflexivity].
  intros doc old holder (Hfind & Hold & _).
  vm_compute in Hfind. injection Hfind as <-.
  vm_compute in Hold. discriminate.
Qed.

(** ** Password and client-credentials exchanges *)

(** C4, amended. In the password exchange an unknown client, a secret that
    does not match, an unknown user and a wrong password all end in
    [done(null, false)] with the store as it was. In the client-credentials
    exchange an unknown client does, and so does a secret that does not match
    when the registered client has scopes. *)
Theorem compound_check_failures validatePasswordHash env client st :
  (forall username password scope,
     clientModel.findOne_id (client_id client) st = None ->
     exchange_password validatePasswordHash env client username password scope st
     = (DoneFalse, st)) /\
  (forall username password scope doc,
     clientModel.findOne_id (client_id client) st = Some doc ->
     client_secret doc <> client_secret client ->
     exchange_password validatePasswordHash env client username password scope st
     = (DoneFalse, st)) /\
  (forall username password scope,
     userModel.findOne_email username st = None ->
     exchange_password validatePasswordHash env client username password scope st
     = (DoneFalse, st)) /\
  (forall username password scope user,
     userModel.findOne_email username st = Some user ->
     validatePasswordHash password (user_password user) = false ->
     exchange_password validatePasswordHash env client username password scope st
     = (DoneFalse, st)) /\
  (forall scope,
     clientModel.findOne_id (client_id client) st = None ->
     exchange_clientCredentials env client scope st = (DoneFalse, st)) /\
  (forall scope doc,
     clientModel.findOne_id (client_id client) st = Some doc ->
     client_secret doc <> client_secret client ->
     client_scopes doc <> [] ->
     exchange_clientCredentials env client scope st = (DoneFalse, st)).
Proof.
  repeat split.
  - intros username password scope Hc. unfold exchange_password. now rewrite Hc.
  - intros username password scope doc Hc Hs. unfold exchange_password. rewrite Hc.
    apply String.eqb_neq in Hs. now rewrite Hs.
  - intros username password scope Hu. unfold exchange_password.
    destruct (clientModel.findOne_id (client_id client) st) as [doc|]; [|reflexivity].
    destruct (client_secret doc =? client_secret client); [|reflexivity].
    now rewrite Hu.
  - intros username password scope user Hu Hp. unfold exchange_password.
    destruct (clientModel.findOne_id (client_id client) st) as [doc|]; [|reflexivity].
    destruct (client_secret doc =? client_secret client); [|reflexivity].
    now rewrite Hu, Hp.
  - intros scope Hc. unfold exchange_clientCredentials. now rewrite Hc.
  - intros scope doc Hc Hs Hsc. unfold exchange_clientCredentials. rewrite Hc.
    apply String.eqb_neq in Hs. rewrite Hs, andb_false_r.
    destruct (client_scopes doc); [contradiction | reflexivity].
Qed.

(** C5. A registered client whose scope list is empty gets, from the
    client-credentials exchange, [done(new Error(...))]: an error, which is
    not the [done(null, false)] of a rejected grant, and the store is as it
    was. *)
Theorem clientCredentials_empty_scopes env client scope st doc :
  clientModel.findOne_id (client_id client) st = Some doc ->
  client_scopes doc = [] ->
  exchange_clientCredentials env client scope st = (DoneErr (NewError incompleteScopes), st)
  /\ fst (exchange_clientCredentials env client scope st) <> DoneFalse.
Proof.
  intros Hc Hsc. unfold exchange_clientCredentials. rewrite Hc, Hsc. cbn.
  split; [reflexivity | discriminate].
Qed.

(** C6. When the client-credentials exchange hands out a token, the stored
    access token has grant type [client_credentials], the whole scope list of
    the registered client and no user, no refresh token is returned, and the
    refresh tokens of the store are untouched; the requested scope plays no
    part in the answer. With a registered client that has scopes and the
    matching secret, and a store that accepts the write, the token is handed
    out. *)
Theorem clientCredentials_token env client scope st :
  (forall a r e st',
     exchange_clientCredentials env client scope st = (DoneTokens a r e, st') ->
     exists doc accessToken,
       clientModel.findOne_id (client_id client) st = Some doc /\
       accessTokens st' = accessTokens st ++ [accessToken] /\
       accessToken_value accessToken = a /\
       accessToken_grantType accessToken = "client_credentials" /\
       accessToken_scopes accessToken = client_scopes doc /\
       accessToken_userId accessToken = None /\
       accessToken_clientId accessToken = client__id client /\
       r = None) /\
  refreshTokens (snd (exchange_clientCredentials env client scope st)) = refreshTokens st /\
  (forall scope',
     exchange_clientCredentials env client scope' st
     = exchange_clientCredentials env client scope st) /\
  (forall doc,
     clientModel.findOne_id (client_id client) st = Some doc ->
     client_scopes doc <> [] ->
     client_secret doc = client_secret client ->
     store_accepts env st = true ->
     exists st',
       exchange_clientCredentials env client scope st
       = (DoneTokens (accessTokenValue env) None (expireAt env), st')).
Proof.
  unfold exchange_clientCredentials.
  destruct (clientModel.findOne_id (client_id client) st) as [doc|] eqn:Hc.
  2:{ repeat split; try discriminate. }
  destruct ((0 <? List.length (client_scopes doc))%nat
            && (client_secret doc =? client_secret client)) eqn:Hgo.
  - apply andb_true_iff in Hgo. destruct Hgo as [Hlen Hsec].
    split; [|split; [|split]].
    + intros a r e st'. run_try.
      destruct (throws env AccessTokenSave || _); [discriminate|].
      intros Heq. injection Heq as Ha Hr He Hst. subst a r e st'.
      exists doc, {| accessToken__id := new_accessToken_id env;
                     accessToken_value := accessTokenValue env;
                     accessToken_clientId := client__id client;
                     accessToken_userId := None;
                     accessToken_scopes := client_scopes doc;
                     accessToken_grantType := "client_credentials";
                     accessToken_expireAt := expireAt env |}.
      cbn. repeat split; reflexivity.
    + run_try. destruct (throws env AccessTokenSave || _); reflexivity.
    + reflexivity.
    + intros doc' Hd _ _ Hok. run_try. accept_writes Hok. eexists. reflexivity.
  - split; [|split; [|split]].
    + intros a r e st'. destruct (List.length (client_scopes doc) =? 0)%nat; discriminate.
    + destruct (List.length (client_scopes doc) =? 0)%nat; reflexivity.
    + reflexivity.
    + intros doc' Hd Hsc Hsec Hok. exfalso.
      injection Hd as <-. apply String.eqb_eq in Hsec. rewrite Hsec, andb_true_r in Hgo.
      destruct (client_scopes doc); [contradiction | discriminate].
Qed.

(** ** Rejection leaves the store alone *)

(** C9. Whenever one of the four exchange handlers ends in
    [done(null, false)], the store it leaves is the store it found: no code
    or token was created or deleted. *)
Theorem rejection_leaves_store validatePasswordHash env client st :
  (forall code redirectUri,
     fst (exchange_code env client code redirectUri st) = DoneFalse ->
     snd (exchange_code env client code redirectUri st) = st) /\
  (forall username password scope,
     fst (exchange_password validatePasswordHash env client username password scope st)
     = DoneFalse ->
     snd (exchange_password validatePasswordHash env client username password scope st)
     = st) /\
  (forall scope,
     fst (exchange_clientCredentials env client scope st) = DoneFalse ->
     snd (exchange_clientCredentials env client scope st) = st) /\
  (forall refreshToken scope,
     fst (exchange_refreshToken env client refreshToken scope st) = DoneFalse ->
     snd (exchange_refreshToken env client refreshToken scope st) = st).
Proof.
  split; [|split; [|split]].
  - intros code redirectUri.
    destruct (exchange_code_cases env client code redirectUri st)
      as [[_ Hres] | [(ac & _ & _ & Hres) | [(ac & h & _ & _ & _ & Hres)
         | (ac & h & _ & Hres)]]]; rewrite Hres; try reflexivity.
    run_try.
    destruct (throws env AuthCodeRemove); [discriminate|].
    destruct (throws env AccessTokenSave || _); [discriminate|].
    store_simpl.
    destruct (throws env RefreshTokenSave || _); discriminate.
  - intros username password scope. unfold exchange_password.
    destruct (clientModel.findOne_id (client_id client) st) as [doc|]; [|reflexivity].
    destruct (client_secret doc =? client_secret client); [|reflexivity].
    destruct (userModel.findOne_email username st) as [user|]; [|reflexivity].
    destruct (validatePasswordHash password (user_password user)); [|reflexivity].
    run_try.
    destruct (throws env AccessTokenSave || _); [discriminate|].
    store_simpl.
    destruct (throws env RefreshTokenSave || _); discriminate.
  - intros scope. unfold exchange_clientCredentials.
    destruct (clientModel.findOne_id (client_id client) st) as [doc|]; [|reflexivity].
    destruct ((0 <? List.length (client_scopes doc))%nat
              && (client_secret doc =? client_secret client)).
    + run_try. destruct (throws env AccessTokenSave || _); discriminate.
    + destruct (List.length (client_scopes doc) =? 0)%nat; [discriminate | reflexivity].
  - intros refreshToken scope.
    destruct (exchange_refreshToken_cases env client refreshToken scope st)
      as [[_ Hres] | [(doc & _ & _ & Hres) | [(doc & old & h & _ & _ & _ & _ & Hres)
         | (doc & old & h & _ & Hres)]]]; rewrite Hres; try reflexivity.
    run_try.
    destruct (throws env AccessTokenSave || _); [discriminate|].
    destruct (throws env AccessTokenRemove); [discriminate|].
    destruct (throws env RefreshTokenRemove); [discriminate|].
    store_simpl.
    destruct (throws env RefreshTokenSave || _); discriminate.
Qed.

(** ** Introspection *)

Lemma truthy_some tok token : truthy tok = Some token -> tok = Some token /\ token <> "".
Proof.
  destruct tok as [[|c s]|]; cbn; try discriminate.
  intros H. injection H as <-. split; [reflexivity | discriminate].
Qed.

Lemma find_filter_none {A} (p q : A -> bool) (l : list A) :
  (forall x, In x l -> p x = true -> q x = false) ->
  find p (filter q l) = None.
Proof.
  intros H. destruct (find p (filter q l)) as [x|] eqn:Hf; [|reflexivity].
  apply find_some in Hf. destruct Hf as [Hin Hp].
  apply filter_In in Hin. destruct Hin as [Hin Hq].
  rewrite (H x Hin Hp) in Hq. discriminate.
Qed.

(** C7. Introspection answers [active: true] only for a token that is given,
    found by its value, and whose client resolves to one with the id of the
    authenticated requester; the details are those of that token. It answers
    exactly [{ active: false }] when no token is given, when none is found,
    when the token has been expired by the store, and when the token's client
    has another id. *)
Theorem introspection_answers req_user st :
  (forall tok clientId scope exp username,
     tokenIntrospectionEndpoint req_user tok st = Active clientId scope exp username ->
     exists token accessToken holder,
       tok = Some token /\
       accessTokenModel.findOne_value token st = Some accessToken /\
       clientModel.findById (accessToken_clientId accessToken) st = Some holder /\
       client_id holder = client_id req_user /\
       clientId = client_id holder /\
       scope = join_scopes (accessToken_scopes accessToken) /\
       exp = accessToken_expireAt accessToken) /\
  (forall token accessToken holder,
     token <> "" ->
     accessTokenModel.findOne_value token st = Some accessToken ->
     clientModel.findById (accessToken_clientId accessToken) st = Some holder ->
     client_id holder = client_id req_user ->
     exists username,
       tokenIntrospectionEndpoint req_user (Some token) st
       = Active (client_id req_user) (join_scopes (accessToken_scopes accessToken))
                (accessToken_expireAt accessToken) username) /\
  tokenIntrospectionEndpoint req_user None st = Inactive /\
  tokenIntrospectionEndpoint req_user (Some "") st = Inactive /\
  (forall token,
     accessTokenModel.findOne_value token st = None ->
     tokenIntrospectionEndpoint req_user (Some token) st = Inactive) /\
  (forall token now,
     (forall t, In t (accessTokens st) -> accessToken_value t = token ->
                (accessToken_expireAt t <= now)%Z) ->
     tokenIntrospectionEndpoint req_user (Some token) (expireAccessTokens now st) = Inactive) /\
  (forall token accessToken holder,
     accessTokenModel.findOne_value token st = Some accessToken ->
     clientModel.findById (accessToken_clientId accessToken) st = Some holder ->
     client_id holder <> client_id req_user ->
     tokenIntrospectionEndpoint req_user (Some token) st = Inactive).
Proof.
  assert (Hnotfound : forall token st0,
             accessTokenModel.findOne_value token st0 = None ->
             tokenIntrospectionEndpoint req_user (Some token) st0 = Inactive).
  { intros token st0 Hf. unfold tokenIntrospectionEndpoint.
    destruct (truthy (Some token)) as [token'|] eqn:Ht; [|reflexivity].
    apply truthy_some in Ht. destruct Ht as [Ht _]. injection Ht as <-.
    now rewrite Hf. }
  split; [|split; [|split; [|split; [|split; [|split]]]]].
  - intros tok clientId scope exp username. unfold tokenIntrospectionEndpoint.
    destruct (truthy tok) as [token|] eqn:Ht; [|discriminate].
    apply truthy_some in Ht. destruct Ht as [-> _].
    destruct (accessTokenModel.findOne_value token st) as [t|] eqn:Hf; [|discriminate].
    destruct (clientModel.findById (accessToken_clientId t) st) as [h|] eqn:Hp;
      [|discriminate].
    destruct (String.eqb_spec (client_id h) (client_id req_user)) as [Hid|]; [|discriminate].
    intros Heq. injection Heq as <- <- <- _.
    exists token, t, h. repeat split; auto.
  - intros token t h Hne Hf Hp Hid. unfold tokenIntrospectionEndpoint.
    destruct token as [|c s]; [contradiction|]. cbn [truthy].
    rewrite Hf, Hp, Hid, String.eqb_refl. eexists. reflexivity.
  - reflexivity.
  - reflexivity.
  - intros token. apply Hnotfound.
  - intros token now Hexp. apply Hnotfound.
    unfold accessTokenModel.findOne_value, expireAccessTokens. cbn [accessTokens accessTokenModel.set].
    apply find_filter_none. intros t Hin Hv.
    apply String.eqb_eq in Hv. apply Z.ltb_ge. now apply Hexp.
  - intros token t h Hf Hp Hne. unfold tokenIntrospectionEndpoint.
    destruct (truthy (Some token)) as [token'|] eqn:Ht; [|reflexivity].
    apply truthy_some in Ht. destruct Ht as [Ht _]. injection Ht as <-.
    rewrite Hf, Hp. apply String.eqb_neq in Hne. now rewrite Hne.
Qed.

(** ** Immediate approval *)

Lemma isScopeEquals_spec a b :
  isScopeEquals a b = true <-> (forall s, In s a <-> In s b).
Proof.
  unfold isScopeEquals. rewrite andb_true_iff, !forallb_forall.
  assert (Hmem : forall s l, existsb (String.eqb s) l = true <-> In s l).
  { intros s l. rewrite existsb_exists. split.
    - intros (x & Hin & Hx). apply String.eqb_eq in Hx. now subst.
    - intros Hin. exists s. split; [assumption | apply String.eqb_refl]. }
  split.
  - intros [Hab Hba] s. split; intros Hin.
    + apply Hmem, Hab, Hin.
    + apply Hmem, Hba, Hin.
  - intros H. split; intros s Hin; apply Hmem, H, Hin.
Qed.

Lemma findOne_clientId_userId_holds client user st t :
  accessTokenModel.findOne_clientId_userId (client__id client) (user__id user) st = Some t ->
  In t (accessTokens st) /\ holds_token client user t.
Proof.
  unfold accessTokenModel.findOne_clientId_userId. intros H. apply find_some in H.
  destruct H as [Hin Hp]. apply andb_true_iff in Hp. destruct Hp as [Hc Hu].
  split; [assumption|]. split; [now apply Nat.eqb_eq|].
  unfold accessTokenModel.userId_eqb in Hu.
  destruct (accessToken_userId t) as [u|]; [|discriminate].
  apply Nat.eqb_eq in Hu. now subst.
Qed.

Lemma holds_token_test client user t :
  holds_token client user t ->
  (accessToken_clientId t =? client__id client)%nat
  && accessTokenModel.userId_eqb (accessToken_userId t) (user__id user) = true.
Proof.
  intros [Hc Hu]. rewrite Hc, Hu. cbn. now rewrite !Nat.eqb_refl.
Qed.

(** C8, amended. Approval is immediate exactly when the access token that
    [findOne] returns for the client and the user (the first one stored for
    them) has, as a set, the requested scopes; any other case, a narrower
    request included, goes to the consent page. When the user holds at most
    one token for the client, that is: exactly when the user holds a token
    for the client with the requested scopes. *)
Theorem immediate_approval client user scope st :
  (authorization_immediate client user scope st = true <->
   exists t,
     accessTokenModel.findOne_clientId_userId (client__id client) (user__id user) st = Some t /\
     (forall s, In s (accessToken_scopes t) <-> In s scope)) /\
  ((forall t1 t2, In t1 (accessTokens st) -> In t2 (accessTokens st) ->
                  holds_token client user t1 -> holds_token client user t2 -> t1 = t2) ->
   (authorization_immediate client user scope st = true <->
    exists t, In t (accessTokens st) /\ holds_token client user t /\
              (forall s, In s (accessToken_scopes t) <-> In s scope))).
Proof.
  assert (Hfirst : authorization_immediate client user scope st = true <->
    exists t,
      accessTokenModel.findOne_clientId_userId (client__id client) (user__id user) st = Some t /\
      (forall s, In s (accessToken_scopes t) <-> In s scope)).
  { unfold authorization_immediate.
    destruct (accessTokenModel.findOne_clientId_userId _ _ st) as [t|].
    - rewrite isScopeEquals_spec. split.
      + intros H. now exists t.
      + intros (t' & Heq & H). now injection Heq as <-.
    - split; [discriminate | intros (t' & Heq & _); discriminate]. }
  split; [exact Hfirst|].
  intros Huniq. rewrite Hfirst. split.
  - intros (t & Hf & Hs). exists t.
    destruct (findOne_clientId_userId_holds _ _ _ _ Hf) as [Hin Hh]. auto.
  - intros (t & Hin & Hh & Hs).
    destruct (accessTokenModel.findOne_clientId_userId (client__id client) (user__id user) st)
      as [t'|] eqn:Hf.
    + destruct (findOne_clientId_userId_holds _ _ _ _ Hf) as [Hin' Hh'].
      exists t'. split; [reflexivity|]. now rewrite (Huniq t' t Hin' Hin Hh' Hh).
    + exfalso. unfold accessTokenModel.findOne_clientId_userId in Hf.
      apply (find_none _ _ Hf) in Hin. rewrite (holds_token_test _ _ _ Hh) in Hin.
      discriminate.
Qed.

(** ** Client deserialisation *)

(** C10. Loading the transaction of an authorization in flight with a client
    id that no client has ends in an error for that transaction:
    [deserializeClient] calls back with no error and no client, which is how
    the loader is told that the client is gone. A transaction that is loaded
    carries a stored client with that id, never an absent one. *)
Theorem deserialize_unknown_fails_transaction id st :
  ((forall c, In c (clients st) -> client_id c <> id) ->
   deserializeClient id st = (None, None) /\
   exists e, loadTransaction id st = TransactionError e) /\
  (forall client,
     loadTransaction id st = TransactionLoaded client ->
     In client (clients st) /\ client_id client = id).
Proof.
  unfold loadTransaction, deserializeClient, clientModel.findOne_id.
  destruct (find (fun c => client_id c =? id) (clients st)) as [c|] eqn:Hf.
  - apply find_some in Hf. destruct Hf as [Hin Heq]. apply String.eqb_eq in Heq.
    split.
    + intros Hno. now apply Hno in Hin.
    + intros client Hloaded. injection Hloaded as <-. now split.
  - split.
    + intros _. split; [reflexivity|]. now eexists.
    + discriminate.
Qed.

(** ** Single use *)

(** The handlers are their step machines run without interruption. *)
Lemma exchange_code_iterate env client code redirectUri st :
  iterate (code_step env client code redirectUri) 4 CodeFindOne st
  = (CodeSettled (fst (exchange_code env client code redirectUri st)),
     snd (exchange_code env client code redirectUri st)).
Proof.
  unfold exchange_code. cbn [iterate code_step].
  destruct (authCodeModel.findOne_value code st) as [ac|]; [|reflexivity].
  destruct (clientModel.findById (authCode_clientId ac) st) as [h|]; [|reflexivity].
  destruct ((client_id client =? client_id h) && (redirectUri =? authCode_redirectUri ac));
    [|reflexivity].
  cbn [iterate code_step]. run_try.
  destruct (throws env AuthCodeRemove); [reflexivity|].
  cbn [iterate code_step]. run_try.
  destruct (throws env AccessTokenSave || _); [reflexivity|].
  cbn [iterate code_step]. run_try.
  destruct (throws env RefreshTokenSave || _); reflexivity.
Qed.

Lemma exchange_refreshToken_iterate env client refreshToken scope st :
  iterate (refresh_step env client refreshToken) 5 RefreshFindOne st
  = (RefreshSettled (fst (exchange_refreshToken env client refreshToken scope st)),
     snd (exchange_refreshToken env client refreshToken scope st)).
Proof.
  unfold exchange_refreshToken. cbn [iterate refresh_step].
  destruct (refreshTokenModel.findOne_value refreshToken st) as [doc|]; [|reflexivity].
  destruct (accessTokenModel.findById (refreshToken_accessTokenId doc) st) as [old|];
    [|reflexivity].
  destruct (clientModel.findById (accessToken_clientId old) st) as [h|]; [|reflexivity].
  destruct (client_id h =? client_id client); [|reflexivity].
  cbn [iterate refresh_step]. run_try.
  destruct (throws env AccessTokenSave || _); [reflexivity|].
  cbn [iterate refresh_step]. run_try.
  destruct (throws env AccessTokenRemove); [reflexivity|].
  cbn [iterate refresh_step]. run_try.
  destruct (throws env RefreshTokenRemove); [reflexivity|].
  cbn [iterate refresh_step]. run_try.
  destruct (throws env RefreshTokenSave || _); reflexivity.
Qed.

Section Holding.
Context {A : Type} (value : A -> string) (key : A -> ObjectId).

Lemma holding_nil_find v l : holding value v l = [] -> find (fun x => value x =? v) l = None.
Proof.
  unfold holding. induction l as [|x l IH]; cbn; [reflexivity|].
  destruct (value x =? v); [discriminate | exact IH].
Qed.

Lemma holding_NoDup v l : NoDup (map value l) -> (List.length (holding value v l) <= 1)%nat.
Proof.
  unfold holding. induction l as [|x l IH]; cbn; intros Hnd; [lia|].
  inversion Hnd as [|? ? Hnotin Hnd']; subst.
  destruct (String.eqb_spec (value x) v) as [Hv|Hv]; [|now apply IH].
  cbn. assert (Hnil : filter (fun y => value y =? v) l = []).
  { destruct (filter (fun y => value y =? v) l) as [|y f] eqn:Hf; [reflexivity|].
    exfalso. assert (Hy : In y (filter (fun y => value y =? v) l))
      by (rewrite Hf; now left).
    apply filter_In in Hy. destruct Hy as [Hy Hyv]. apply String.eqb_eq in Hyv.
    apply Hnotin. rewrite Hv, <- Hyv. now apply in_map. }
  rewrite Hnil. cbn. lia.
Qed.

Lemma holding_remove_le v _id l :
  (List.length (holding value v (filter (fun y => negb (key y =? _id)%nat) l))
   <= List.length (holding value v l))%nat.
Proof.
  unfold holding. induction l as [|x l IH]; cbn; [lia|].
  destruct (key x =? _id)%nat; cbn; destruct (value x =? v); cbn; lia.
Qed.

(** removing the one document with the value leaves none with it *)
Lemma holding_remove_found v l x :
  (List.length (holding value v l) <= 1)%nat ->
  In x l -> value x = v ->
  holding value v (filter (fun y => negb (key y =? key x)%nat) l) = [].
Proof.
  unfold holding. induction l as [|y l IH]; cbn; intros Hlen Hin Hv; [reflexivity|].
  destruct Hin as [-> | Hin].
  - rewrite Nat.eqb_refl. cbn.
    apply String.eqb_eq in Hv. rewrite Hv in Hlen. cbn in Hlen.
    assert (Hnil : filter (fun y => value y =? v) l = [])
      by (destruct (filter (fun y => value y =? v) l); [reflexivity | cbn in Hlen; lia]).
    pose proof (holding_remove_le v (key x) l) as Hle. unfold holding in Hle.
    rewrite Hnil in Hle. cbn in Hle.
    destruct (filter _ (filter _ l)); [reflexivity | cbn in Hle; lia].
  - destruct (String.eqb_spec (value y) v) as [Hy|Hy].
    + cbn in Hlen.
      assert (Hnil : filter (fun y => value y =? v) l = [])
        by (destruct (filter (fun y => value y =? v) l); [reflexivity | cbn in Hlen; lia]).
      exfalso. assert (Hx : In x (filter (fun y => value y =? v) l)).
      { apply filter_In. split; [assumption | now apply String.eqb_eq]. }
      rewrite Hnil in Hx. exact Hx.
    + destruct (key y =? key x)%nat; cbn.
      * now apply IH.
      * apply String.eqb_neq in Hy. rewrite Hy. now apply IH.
Qed.

Lemma holding_app_other v l x : value x <> v -> holding value v (l ++ [x]) = holding value v l.
Proof.
  intros Hv. unfold holding. rewrite filter_app. cbn.
  apply String.eqb_neq in Hv. rewrite Hv. apply app_nil_r.
Qed.
End Holding.

Section OneAfterAnother.
Context {R : Type} (run : R -> Store -> Outcome * Store).
(** [inv] holds of the store throughout, [spent] once the credential is
    used up, [ok] of every request. *)
Context (ok : R -> Prop) (inv spent : Store -> Prop).
Hypothesis inv_step : forall r st, ok r -> inv st -> inv (snd (run r st)).
Hypothesis issued_spent :
  forall r st, ok r -> inv st -> issued (fst (run r st)) = true -> spent (snd (run r st)).
Hypothesis spent_rejects : forall r st, spent st -> run r st = (DoneFalse, st).

Lemma spent_all_rejected reqs st :
  spent st -> Forall (fun o => o = DoneFalse) (fst (one_after_another run reqs st)).
Proof.
  revert st. induction reqs as [|r reqs IH]; intros st Hsp; cbn; [constructor|].
  rewrite (spent_rejects r st Hsp).
  specialize (IH st Hsp). destruct (one_after_another run reqs st) as [os st''].
  cbn in *. constructor; [reflexivity | exact IH].
Qed.

Lemma issued_once reqs st before o after :
  Forall ok reqs -> inv st ->
  fst (one_after_another run reqs st) = before ++ o :: after ->
  issued o = true ->
  Forall (fun o' => issued o' = false) before /\ Forall (fun o' => o' = DoneFalse) after.
Proof.
  revert st before. induction reqs as [|r reqs IH]; intros st before Hok Hinv Heq Hiss; cbn in Heq.
  - destruct before; discriminate.
  - inversion Hok as [|? ? Hr Hrest]; subst.
    pose proof (inv_step r st Hr Hinv) as Hinv'.
    pose proof (issued_spent r st Hr Hinv) as Hsp.
    destruct (run r st) as [o1 st1]. cbn [fst snd] in *.
    pose proof (spent_all_rejected reqs st1) as Hall.
    specialize (IH st1).
    destruct (one_after_another run reqs st1) as [os st2]. cbn [fst snd] in *.
    destruct before as [|b before]; cbn in Heq; injection Heq as Ho Hos; subst.
    + split; [constructor | now apply Hall, Hsp].
    + destruct (issued b) eqn:Hb.
      * exfalso. specialize (Hall (Hsp eq_refl)).
        rewrite Forall_app in Hall. destruct Hall as [_ Hall].
        inversion Hall as [|? ? Ho _]; subst. discriminate.
      * destruct (IH before Hrest Hinv' eq_refl Hiss) as [Hbefore Hafter].
        split; [constructor; assumption | assumption].
Qed.
End OneAfterAnother.

Lemma exchange_code_spent env client code redirectUri st :
  holding authCode_value code (authCodes st) = [] ->
  exchange_code env client code redirectUri st = (DoneFalse, st).
Proof.
  intros H. unfold exchange_code, authCodeModel.findOne_value.
  now rewrite (holding_nil_find authCode_value code _ H).
Qed.

Lemma exchange_code_holding env client code redirectUri st :
  (List.length (holding authCode_value code (authCodes st)) <= 1)%nat ->
  (List.length (holding authCode_value code
                  (authCodes (snd (exchange_code env client code redirectUri st)))) <= 1)%nat
  /\ (issued (fst (exchange_code env client code redirectUri st)) = true ->
      holding authCode_value code
        (authCodes (snd (exchange_code env client code redirectUri st))) = []).
Proof.
  intros Hlen.
  destruct (exchange_code_cases env client code redirectUri st)
    as [[_ Hres] | [(ac & _ & _ & Hres) | [(ac & h & _ & _ & _ & Hres)
       | (ac & h & Hchk & Hres)]]]; rewrite Hres; clear Hres; cbn [fst snd];
    try (split; [assumption | discriminate]).
  destruct Hchk as (Hfind & _).
  apply findOne_authCode_value in Hfind. destruct Hfind as [Hin Hv].
  pose proof (holding_remove_found authCode_value authCode__id code _ ac Hlen Hin Hv) as Hgone.
  run_try.
  destruct (throws env AuthCodeRemove); cbn [fst snd authCodes];
    [split; [assumption | discriminate]|].
  destruct (throws env AccessTokenSave || _); cbn [fst snd authCodes authCodeModel.set];
    [rewrite Hgone; split; [cbn; lia | reflexivity]|].
  store_simpl.
  destruct (throws env RefreshTokenSave || _);
    cbn [fst snd authCodes authCodeModel.set accessTokenModel.set refreshTokenModel.set];
    rewrite Hgone; split; cbn; auto; lia.
Qed.

Lemma exchange_refreshToken_spent env client refreshToken scope st :
  holding refreshToken_value refreshToken (refreshTokens st) = [] ->
  exchange_refreshToken env client refreshToken scope st = (DoneFalse, st).
Proof.
  intros H. unfold exchange_refreshToken, refreshTokenModel.findOne_value.
  now rewrite (holding_nil_find refreshToken_value refreshToken _ H).
Qed.

Lemma exchange_refreshToken_holding env client refreshToken scope st :
  refreshTokenValue env <> refreshToken ->
  (List.length (holding refreshToken_value refreshToken (refreshTokens st)) <= 1)%nat ->
  (List.length (holding refreshToken_value refreshToken
                  (refreshTokens (snd (exchange_refreshToken env client refreshToken scope st))))
   <= 1)%nat
  /\ (issued (fst (exchange_refreshToken env client refreshToken scope st)) = true ->
      holding refreshToken_value refreshToken
        (refreshTokens (snd (exchange_refreshToken env client refreshToken scope st))) = []).
Proof.
  intros Hnew Hlen.
  destruct (exchange_refreshToken_cases env client refreshToken scope st)
    as [[_ Hres] | [(doc & _ & _ & Hres) | [(doc & old & h & _ & _ & _ & _ & Hres)
       | (doc & old & h & Hchk & Hres)]]]; rewrite Hres; clear Hres; cbn [fst snd];
    try (split; [assumption | discriminate]).
  destruct Hchk as (Hfind & _).
  apply findOne_refreshToken_value in Hfind. destruct Hfind as [Hin Hv].
  pose proof (holding_remove_found refreshToken_value refreshToken__id refreshToken _ doc
                Hlen Hin Hv) as Hgone.
  run_try.
  destruct (throws env AccessTokenSave || _); cbn [fst snd refreshTokens];
    [split; [assumption | discriminate]|].
  destruct (throws env AccessTokenRemove); cbn [fst snd refreshTokens accessTokenModel.set];
    [split; [assumption | discriminate]|].
  destruct (throws env RefreshTokenRemove);
    cbn [fst snd refreshTokens accessTokenModel.set refreshTokenModel.set];
    [split; [assumption | discriminate]|].
  store_simpl.
  destruct (throws env RefreshTokenSave || _);
    cbn [fst snd refreshTokens accessTokenModel.set refreshTokenModel.set].
  - rewrite Hgone. split; [cbn; lia | reflexivity].
  - rewrite (holding_app_other refreshToken_value), Hgone; [|exact Hnew].
    split; [cbn; lia | reflexivity].
Qed.

Lemma exchange_code_issues env client code redirectUri st authCode holder :
  code_checks st client code redirectUri authCode holder ->
  store_accepts env st = true ->
  fst (exchange_code env client code redirectUri st)
  = DoneTokens (accessTokenValue env) (Some (refreshTokenValue env)) (expireAt env).
Proof.
  intros (Hf & Hp & Hid & Huri) Hok. unfold exchange_code.
  rewrite Hf, Hp, Hid, Huri, !String.eqb_refl. cbn [andb].
  run_try. accept_writes Hok. reflexivity.
Qed.

Lemma exchange_refreshToken_issues env client refreshToken scope st doc old holder :
  refresh_checks st client refreshToken doc old holder ->
  store_accepts env st = true ->
  fst (exchange_refreshToken env client refreshToken scope st)
  = DoneTokens (accessTokenValue env) (Some (refreshTokenValue env)) (expireAt env).
Proof.
  intros (Hf & Ho & Hp & Hid) Hok. unfold exchange_refreshToken.
  rewrite Hf, Ho, Hp, Hid, String.eqb_refl.
  run_try. accept_writes Hok.
  case_duplicate Hex; [|reflexivity].
  exfalso. apply existsb_exists in Hex. destruct Hex as (x & Hin & Hx).
  apply (in_remove_by_id refreshToken__id) in Hin. destruct Hin as [Hin _].
  apply Nat.eqb_eq in Hx.
  exact (existsb_id_false refreshToken__id (new_refreshToken_id env) _ x
           (store_accepts_refreshToken_id _ _ Hok) Hin Hx).
Qed.

Lemma one_after_another_length {R} (run : R -> Store -> Outcome * Store) reqs st :
  List.length (fst (one_after_another run reqs st)) = List.length reqs.
Proof.
  revert st. induction reqs as [|r reqs IH]; intros st; cbn; [reflexivity|].
  destruct (run r st) as [o st1]. specialize (IH st1).
  destruct (one_after_another run reqs st1). cbn in *. now rewrite IH.
Qed.

Lemma Forall_eq_repeat {A} (x : A) l :
  Forall (fun y => y = x) l -> l = repeat x (List.length l).
Proof.
  induction 1 as [|y l Hy _ IH]; cbn; [reflexivity|]. now rewrite Hy, <- IH.
Qed.

(** the first request is handed tokens and spends the credential: the rest
    are rejected *)
Lemma first_issued_rest_rejected {R} (run : R -> Store -> Outcome * Store)
    (spent : Store -> Prop) r reqs st o :
  (forall r' st', spent st' -> run r' st' = (DoneFalse, st')) ->
  fst (run r st) = o -> spent (snd (run r st)) ->
  fst (one_after_another run (r :: reqs) st) = o :: repeat DoneFalse (List.length reqs).
Proof.
  intros Hrej Ho Hsp. cbn. destruct (run r st) as [o1 st1]. cbn [fst snd] in *.
  pose proof (spent_all_rejected run spent Hrej reqs st1 Hsp) as Hall.
  pose proof (one_after_another_length run reqs st1) as Hlen.
  destruct (one_after_another run reqs st1) as [os st2]. cbn [fst snd] in *.
  apply Forall_eq_repeat in Hall. rewrite Hlen in Hall. now subst.
Qed.

(** C2, amended. When the exchanges that present one code value are served
    one after another, on a store whose code values are unique, at most one
    of them hands out tokens and every later one ends in [done(null, false)];
    if the first passes the checks and the store accepts its writes, it is
    handed the tokens and all the others are rejected. The same holds for the
    exchanges that present one refresh token value, on a store whose refresh
    token values are unique, as long as no request draws the presented value
    again for its new refresh token. *)
Theorem single_use_one_after_another :
  (forall code reqs st before o after,
     NoDup (map authCode_value (authCodes st)) ->
     fst (exchange_code_each code reqs st) = before ++ o :: after ->
     issued o = true ->
     Forall (fun o' => issued o' = false) before /\
     Forall (fun o' => o' = DoneFalse) after) /\
  (forall code r reqs st authCode holder,
     NoDup (map authCode_value (authCodes st)) ->
     code_checks st (cr_client r) code (cr_redirectUri r) authCode holder ->
     store_accepts (cr_env r) st = true ->
     fst (exchange_code_each code (r :: reqs) st)
     = DoneTokens (accessTokenValue (cr_env r)) (Some (refreshTokenValue (cr_env r)))
                  (expireAt (cr_env r))
       :: repeat DoneFalse (List.length reqs)) /\
  (forall refreshToken reqs st before o after,
     NoDup (map refreshToken_value (refreshTokens st)) ->
     Forall (fun r => refreshTokenValue (rr_env r) <> refreshToken) reqs ->
     fst (exchange_refreshToken_each refreshToken reqs st) = before ++ o :: after ->
     issued o = true ->
     Forall (fun o' => issued o' = false) before /\
     Forall (fun o' => o' = DoneFalse) after) /\
  (forall refreshToken r reqs st doc old holder,
     NoDup (map refreshToken_value (refreshTokens st)) ->
     refreshTokenValue (rr_env r) <> refreshToken ->
     refresh_checks st (rr_client r) refreshToken doc old holder ->
     store_accepts (rr_env r) st = true ->
     fst (exchange_refreshToken_each refreshToken (r :: reqs) st)
     = DoneTokens (accessTokenValue (rr_env r)) (Some (refreshTokenValue (rr_env r)))
                  (expireAt (rr_env r))
       :: repeat DoneFalse (List.length reqs)).
Proof.
  split; [|split; [|split]].
  - intros code reqs st before o after Hnd Heq Hiss.
    unfold exchange_code_each in Heq.
    apply (issued_once
             (fun r => exchange_code (cr_env r) (cr_client r) code (cr_redirectUri r))
             (fun _ => True)
             (fun s => (List.length (holding authCode_value code (authCodes s)) <= 1)%nat)
             (fun s => holding authCode_value code (authCodes s) = [])) with reqs st o.
    + intros r s _ Hinv. now apply exchange_code_holding.
    + intros r s _ Hinv. now apply exchange_code_holding.
    + intros r s Hsp. now apply exchange_code_spent.
    + apply Forall_forall. auto.
    + now apply holding_NoDup.
    + exact Heq.
    + exact Hiss.
  - intros code r reqs st ac h Hnd Hchk Hok. unfold exchange_code_each.
    pose proof (exchange_code_issues _ _ _ _ _ _ _ Hchk Hok) as Hiss.
    apply (first_issued_rest_rejected
             (fun r => exchange_code (cr_env r) (cr_client r) code (cr_redirectUri r))
             (fun s => holding authCode_value code (authCodes s) = [])).
    + intros r' s Hsp. now apply exchange_code_spent.
    + exact Hiss.
    + apply exchange_code_holding; [now apply holding_NoDup | now rewrite Hiss].
  - intros refreshToken reqs st before o after Hnd Hfresh Heq Hiss.
    unfold exchange_refreshToken_each in Heq.
    apply (issued_once
             (fun r => exchange_refreshToken (rr_env r) (rr_client r) refreshToken (rr_scope r))
             (fun r => refreshTokenValue (rr_env r) <> refreshToken)
             (fun s => (List.length (holding refreshToken_value refreshToken
                                       (refreshTokens s)) <= 1)%nat)
             (fun s => holding refreshToken_value refreshToken (refreshTokens s) = []))
      with reqs st o.
    + intros r s Hr Hinv. now apply exchange_refreshToken_holding.
    + intros r s Hr Hinv. now apply exchange_refreshToken_holding.
    + intros r s Hsp. now apply exchange_refreshToken_spent.
    + exact Hfresh.
    + now apply holding_NoDup.
    + exact Heq.
    + exact Hiss.
  - intros refreshToken r reqs st doc old h Hnd Hnew Hchk Hok.
    unfold exchange_refreshToken_each.
    pose proof (exchange_refreshToken_issues _ _ _ (rr_scope r) _ _ _ _ Hchk Hok) as Hiss.
    apply (first_issued_rest_rejected
             (fun r => exchange_refreshToken (rr_env r) (rr_client r) refreshToken (rr_scope r))
             (fun s => holding refreshToken_value refreshToken (refreshTokens s) = [])).
    + intros r' s Hsp. now apply exchange_refreshToken_spent.
    + exact Hiss.
    + apply exchange_refreshToken_holding;
        [exact Hnew | now apply holding_NoDup | now rewrite Hiss].
Qed.

(** * The claims on the sample data *)

Module Examples.
Import Sample.

(** [c1] exchanges the code it was granted. *)
Lemma exchange_code_correct_witness :
exists st',
  exchange_code (env 1) c1 "c" cb granted = (DoneTokens "aa" (Some "rr") 180001, st').
Proof.
destruct (exchange_code_correct (env 1) c1 "c" cb granted) as (_ & Hissue & _).
apply (Hissue the_code c1).
- unfold code_checks. repeat split; reflexivity.
- reflexivity.
Defined.

(** C2 as worded fails. Two exchanges of the code ["c"], the second running
    between the awaits of the first, and two such exchanges of the refresh
    token ["rr"]: all four are handed tokens. *)
Lemma interleaved_exchanges_both_issue :
fst (interleave (fun i => code_step (env (1 + i)) c1 "c" cb)
       [0; 1; 0; 0; 0; 1; 1; 1] [CodeFindOne; CodeFindOne] granted)
= [CodeSettled (DoneTokens "aa" (Some "rr") 180001);
   CodeSettled (DoneTokens "aaa" (Some "rrr") 180002)]
/\ fst (interleave (fun i => refresh_step (env (2 + i)) c1 "rr")
          [0; 1; 0; 0; 0; 0; 1; 1; 1; 1] [RefreshFindOne; RefreshFindOne] exchanged)
   = [RefreshSettled (DoneTokens "aaa" (Some "rrr") 180002);
      RefreshSettled (DoneTokens "aaaa" (Some "rrrr") 180003)]
/\ ~ single_use_when_interleaved.
Proof.
split; [reflexivity|]. split; [reflexivity|].
intros [Hcode _].
specialize (Hcode (fun i => env (1 + i)) c1 "c" cb [0; 1; 0; 0; 0; 1; 1; 1] 2 granted).
vm_compute in Hcode. lia.
Qed.

(** Three exchanges of the code ["c"] one after another. *)
Lemma single_use_one_after_another_witness :
fst (exchange_code_each "c" [code_request 1; code_request 2; code_request 3] granted)
= [DoneTokens "aa" (Some "rr") 180001; DoneFalse; DoneFalse].
Proof.
destruct single_use_one_after_another as (_ & Hfirst & _).
apply (Hfirst "c" (code_request 1) [code_request 2; code_request 3] granted the_code c1).
- simpl. constructor; [simpl; tauto | constructor].
- unfold code_checks. repeat split; reflexivity.
- reflexivity.
Defined.

(** [c1] refreshes the token pair it got for the code. *)
Lemma exchange_refreshToken_correct_witness :
exists st',
  exchange_refreshToken (env 2) c1 "rr" [] exchanged
  = (DoneTokens "aaa" (Some "rrr") 180002, st').
Proof.
destruct (exchange_refreshToken_correct (env 2) c1 "rr" [] exchanged) as (_ & Hissue & _).
apply (Hissue the_refreshToken the_accessToken c1).
- unfold refresh_checks. repeat split; reflexivity.
- reflexivity.
Defined.

(** C4 as worded fails. [c2] is registered without scopes; with a secret that
    is not its own the client-credentials exchange answers with the error,
    not with [done(null, false)]. *)
Lemma clientCredentials_mismatch_without_scopes :
clientModel.findOne_id (client_id c2_wrong_secret) registry = Some c2
/\ client_secret c2 <> client_secret c2_wrong_secret
/\ exchange_clientCredentials (env 0) c2_wrong_secret ["read"] registry
   = (DoneErr (NewError incompleteScopes), registry)
/\ ~ clientCredentials_secret_mismatch_rejects.
Proof.
split; [reflexivity|]. split; [discriminate|]. split; [reflexivity|].
intros Hclaim.
specialize (Hclaim (env 0) c2_wrong_secret ["read"] registry c2 eq_refl).
assert (Hne : client_secret c2 <> client_secret c2_wrong_secret) by discriminate.
specialize (Hclaim Hne). discriminate.
Qed.

(** A wrong password for [u1]. *)
Lemma compound_check_failures_witness :
exchange_password plain (env 0) c1 "u1@example.org" "letmein" ["read"] registry
= (DoneFalse, registry).
Proof.
destruct (compound_check_failures plain (env 0) c1 registry)
  as (_ & _ & _ & Hpassword & _).
apply (Hpassword "u1@example.org" "letmein" ["read"] u1); reflexivity.
Defined.

Lemma clientCredentials_empty_scopes_witness :
exchange_clientCredentials (env 0) c2 ["read"] registry
= (DoneErr (NewError incompleteScopes), registry)
/\ fst (exchange_clientCredentials (env 0) c2 ["read"] registry) <> DoneFalse.
Proof.
apply (clientCredentials_empty_scopes (env 0) c2 ["read"] registry c2); reflexivity.
Defined.

(** [c1] asks for [write], which it is not registered for, and is given its
  registered scopes. *)
Lemma clientCredentials_token_witness :
exists st',
  exchange_clientCredentials (env 0) c1 ["write"] registry
  = (DoneTokens "a" None 180000, st').
Proof.
destruct (clientCredentials_token (env 0) c1 ["write"] registry) as (_ & _ & _ & Hissue).
apply (Hissue c1); [reflexivity | discriminate | reflexivity | reflexivity].
Defined.

(** [c2] asks about the token of [c1]. *)
Lemma introspection_answers_witness :
tokenIntrospectionEndpoint c2 (Some "aa") exchanged = Inactive.
Proof.
destruct (introspection_answers c2 exchanged) as (_ & _ & _ & _ & _ & _ & Hother).
apply (Hother "aa" the_accessToken c1); [reflexivity | reflexivity | discriminate].
Defined.

(** C8 as worded fails. [u1] holds a token of [c1] for [read] and one for
    [read write]; [c1] asks for [read write] and the user is sent to the
    consent page. *)
Lemma immediate_misses_second_token :
authorization_immediate c1 u1 ["read"; "write"] two_tokens = false
/\ (exists t, In t (accessTokens two_tokens) /\ holds_token c1 u1 t /\
              accessToken_scopes t = ["read"; "write"])
/\ ~ immediate_iff_some_token_matches.
Proof.
assert (Hheld : exists t, In t (accessTokens two_tokens) /\ holds_token c1 u1 t /\
                          accessToken_scopes t = ["read"; "write"]).
{ exists {| accessToken__id := 202; accessToken_value := "aaa"; accessToken_clientId := 1;
            accessToken_userId := Some 10; accessToken_scopes := ["read"; "write"];
            accessToken_grantType := "password"; accessToken_expireAt := 180002 |}.
  split; [right; left; reflexivity|]. unfold holds_token. repeat split. }
split; [reflexivity|]. split; [exact Hheld|].
intros Hclaim. destruct Hheld as (t & Hin & Hh & Hs).
assert (Himm : authorization_immediate c1 u1 ["read"; "write"] two_tokens = true).
{ apply Hclaim. exists t. split; [exact Hin|]. split; [exact Hh|].
  intros s. rewrite Hs. tauto. }
discriminate.
Qed.

(** With the single token of [exchanged]. *)
Lemma immediate_approval_witness :
authorization_immediate c1 u1 ["read"] exchanged = true <->
exists t, In t (accessTokens exchanged) /\ holds_token c1 u1 t /\
          (forall s, In s (accessToken_scopes t) <-> In s ["read"]).
Proof.
destruct (immediate_approval c1 u1 ["read"] exchanged) as (_ & Hone).
apply Hone.
intros t1 t2 H1 H2 _ _. simpl in H1, H2.
destruct H1 as [<- | []]. destruct H2 as [<- | []]. reflexivity.
Defined.

(** The right code with another redirect uri. *)
Lemma rejection_leaves_store_witness :
snd (exchange_code (env 1) c1 "c" "https://evil/cb" granted) = granted.
Proof.
destruct (rejection_leaves_store plain (env 1) c1 granted) as (Hcode & _).
apply (Hcode "c" "https://evil/cb"). reflexivity.
Defined.

(** No client has the id ["nobody"]. *)
Lemma deserialize_unknown_fails_transaction_witness :
deserializeClient "nobody" registry = (None, None) /\
exists e, loadTransaction "nobody" registry = TransactionError e.
Proof.
destruct (deserialize_unknown_fails_transaction "nobody" registry) as (Hunknown & _).
apply Hunknown.
intros c Hin. simpl in Hin. destruct Hin as [<- | [<- | []]]; discriminate.
Defined.

End Examples.

(** * Further properties of the controller *)

(** ** The registry is read only *)

(** X8. No grant and no exchange writes to the client or user collections,
    whatever its outcome. *)
Theorem registry_untouched validatePasswordHash env client st :
  (forall redirectUri user scope,
     clients (snd (grant_code env client redirectUri user scope st)) = clients st /\
     users (snd (grant_code env client redirectUri user scope st)) = users st) /\
  (forall user scope,
     clients (snd (grant_token env client user scope st)) = clients st /\
     users (snd (grant_token env client user scope st)) = users st) /\
  (forall code redirectUri,
     clients (snd (exchange_code env client code redirectUri st)) = clients st /\
     users (snd (exchange_code env client code redirectUri st)) = users st) /\
  (forall username password scope,
     clients (snd (exchange_password validatePasswordHash env client username password
                     scope st)) = clients st /\
     users (snd (exchange_password validatePasswordHash env client username password
                   scope st)) = users st) /\
  (forall scope,
     clients (snd (exchange_clientCredentials env client scope st)) = clients st /\
     users (snd (exchange_clientCredentials env client scope st)) = users st) /\
  (forall refreshToken scope,
     clients (snd (exchange_refreshToken env client refreshToken scope st)) = clients st /\
     users (snd (exchange_refreshToken env client refreshToken scope st)) = users st).
Proof.
  split; [|split; [|split; [|split; [|split]]]].
  - intros redirectUri user scope. unfold grant_code. run_try.
    destruct (throws env AuthCodeSave || _); cbn; auto.
  - intros user scope. unfold grant_token. run_try.
    destruct (throws env AccessTokenSave || _); cbn; auto.
  - intros code redirectUri.
    destruct (exchange_code_cases env client code redirectUri st)
      as [[_ Hres] | [(ac & _ & _ & Hres) | [(ac & h & _ & _ & _ & Hres)
         | (ac & h & _ & Hres)]]]; rewrite Hres; auto.
    run_try.
    destruct (throws env AuthCodeRemove); cbn; auto.
    destruct (throws env AccessTokenSave || _); cbn; auto.
    destruct (throws env RefreshTokenSave || _); cbn; auto.
  - intros username password scope. unfold exchange_password.
    destruct (clientModel.findOne_id (client_id client) st) as [doc|]; auto.
    destruct (client_secret doc =? client_secret client); auto.
    destruct (userModel.findOne_email username st) as [user|]; auto.
    destruct (validatePasswordHash password (user_password user)); auto.
    run_try.
    destruct (throws env AccessTokenSave || _); cbn; auto.
    destruct (throws env RefreshTokenSave || _); cbn; auto.
  - intros scope. unfold exchange_clientCredentials.
    destruct (clientModel.findOne_id (client_id client) st) as [doc|]; auto.
    destruct ((0 <? List.length (client_scopes doc))%nat
              && (client_secret doc =? client_secret client)).
    + run_try. destruct (throws env AccessTokenSave || _); cbn; auto.
    + destruct (List.length (client_scopes doc) =? 0)%nat; auto.
  - intros refreshToken scope.
    destruct (exchange_refreshToken_cases env client refreshToken scope st)
      as [[_ Hres] | [(doc & _ & _ & Hres) | [(doc & old & h & _ & _ & _ & _ & Hres)
         | (doc & old & h & _ & Hres)]]]; rewrite Hres; auto.
    run_try.
    destruct (throws env AccessTokenSave || _); cbn; auto.
    destruct (throws env AccessTokenRemove); cbn; auto.
    destruct (throws env RefreshTokenRemove); cbn; auto.
    destruct (throws env RefreshTokenSave || _); cbn; auto.
Qed.

(** ** List and string facts *)

Lemma find_app_last {A} (p : A -> bool) (l : list A) x :
  find p l = None -> find p (l ++ [x]) = if p x then Some x else None.
Proof.
  induction l as [|y l IH]; cbn; [reflexivity|].
  destruct (p y); [discriminate | exact IH].
Qed.

Lemma find_app_first {A} (p : A -> bool) (l : list A) x y :
  find p l = Some y -> find p (l ++ [x]) = Some y.
Proof.
  induction l as [|z l IH]; cbn; [discriminate|].
  destruct (p z); [auto | exact IH].
Qed.

Lemma find_none_existsb {A} (p : A -> bool) (l : list A) :
  find p l = None <-> existsb p l = false.
Proof.
  induction l as [|y l IH]; cbn; [tauto|].
  destruct (p y); cbn; [split; discriminate | exact IH].
Qed.

(** removing the document appended last, whose [_id] was free, gives the
    collection back *)
Lemma remove_appended {A} (key : A -> ObjectId) (l : list A) x :
  existsb (fun y => key y =? key x)%nat l = false ->
  filter (fun y => negb (key y =? key x)%nat) (l ++ [x]) = l.
Proof.
  intros Hfree. rewrite filter_app. cbn. rewrite Nat.eqb_refl. cbn.
  rewrite app_nil_r. induction l as [|y l IH]; cbn in *; [reflexivity|].
  apply orb_false_iff in Hfree. destruct Hfree as [Hy Hl].
  rewrite Hy. cbn. now rewrite IH.
Qed.

Lemma find_remove_by_id_none {A} (key : A -> ObjectId) (_id : ObjectId) (l : list A) :
  find (fun y => key y =? _id)%nat (filter (fun y => negb (key y =? _id)%nat) l) = None.
Proof.
  apply find_filter_none. intros x _ Hx. now rewrite Hx.
Qed.

Lemma find_remove_other {A} (p q : A -> bool) (l : list A) x :
  find p l = Some x -> q x = true -> find p (filter q l) = Some x.
Proof.
  induction l as [|y l IH]; cbn; [discriminate|].
  destruct (p y) eqn:Hp.
  - intros Heq Hq. injection Heq as ->. rewrite Hq. cbn. now rewrite Hp.
  - intros Hf Hq. destruct (q y); cbn; [rewrite Hp|]; now apply IH.
Qed.

Lemma find_unique_key {A} (key : A -> string) (l : list A) x :
  NoDup (map key l) -> In x l -> find (fun y => key y =? key x) l = Some x.
Proof.
  induction l as [|y l IH]; cbn; intros Hnd Hin; [contradiction|].
  inversion Hnd as [|? ? Hnotin Hnd']; subst.
  destruct Hin as [-> | Hin].
  - now rewrite String.eqb_refl.
  - destruct (String.eqb_spec (key y) (key x)) as [Heq|Hne]; [|now apply IH].
    exfalso. apply Hnotin. rewrite Heq. now apply in_map.
Qed.

Lemma prefix_append p s : String.prefix p s = true <-> exists rest, s = (p ++ rest)%string.
Proof.
  revert s. induction p as [|c p IH]; intros s.
  - split; [intros _; now exists s|]. intros _. now destruct s.
  - destruct s as [|d s]; cbn.
    + split; [discriminate | intros (rest & Hr); discriminate].
    + destruct (Ascii.ascii_dec c d) as [->|Hne].
      * rewrite IH. split; intros (rest & Hr); exists rest; [now rewrite Hr|].
        now injection Hr.
      * split; [discriminate|]. intros (rest & Hr). injection Hr as Hd _. congruence.
Qed.

(** ** Authorization request and login form *)

(** X13. The validate callback accepts exactly the registered client with the
    requested id together with a redirect uri that is, as a whole string, one
    of the uris registered for it; it hands back that same uri. *)
Theorem authorization_validate_accepts clientId redirectUri st client uri :
  authorization_validate clientId redirectUri st = Some (client, uri) <->
  clientModel.findOne_id clientId st = Some client /\
  In redirectUri (client_redirectUris client) /\
  uri = redirectUri.
Proof.
  unfold authorization_validate.
  destruct (clientModel.findOne_id clientId st) as [c|].
  - destruct (existsb (String.eqb redirectUri) (client_redirectUris c)) eqn:Hex.
    + apply existsb_exists in Hex. destruct Hex as (x & Hin & Hx).
      apply String.eqb_eq in Hx. subst x. split.
      * intros Heq. injection Heq as <- <-. auto.
      * intros (Hc & _ & ->). now injection Hc as <-.
    + split; [discriminate|]. intros (Hc & Hin & _). injection Hc as <-.
      assert (existsb (String.eqb redirectUri) (client_redirectUris c) = true);
        [|congruence].
      apply existsb_exists. exists redirectUri. split; [assumption | apply String.eqb_refl].
  - split; [discriminate | intros (Hc & _); discriminate].
Qed.

(** X14. The login form is rendered when the request has no session, or when the
    session's [returnTo] begins with [/oauth2/authorize?]; with a session
    whose [returnTo] is missing, empty or anything else it throws. What is
    rendered as the error message is the first of the session's messages. *)
Theorem loginForm_outcome req_session :
  ((exists e, loginForm req_session = LoginRender e) <->
   req_session = None \/
   exists session rest,
     req_session = Some session /\
     session_returnTo session = Some ("/oauth2/authorize?" ++ rest)%string) /\
  ((forall e, loginForm req_session <> LoginRender e) ->
   loginForm req_session = LoginThrows notPermitted) /\
  (forall e, loginForm req_session = LoginRender e ->
     e = match req_session with
         | Some session =>
           match session_messages session with
           | Some l => match hd_error l with Some m => Message m | None => MessageUndefined end
           | None => MessageNull
           end
         | None => MessageNull
         end).
Proof.
  destruct req_session as [session|]; cbn [loginForm].
  2:{ split; [|split].
      - split; [auto | intros _; eexists; reflexivity].
      - intros H. now contradiction (H MessageNull).
      - intros e He. now injection He as <-. }
  unfold isTruthy, startsWith.
  destruct (session_returnTo session) as [returnTo|] eqn:Hrt.
  - destruct returnTo as [|c returnTo'] eqn:Hr; cbn [truthy negb orb andb].
    + split; [|split].
      * split; [intros (e & He); discriminate|].
        intros [Hn | (s' & rest & Hs & Hrt')]; [discriminate|].
        injection Hs as <-. rewrite Hrt in Hrt'. discriminate.
      * reflexivity.
      * discriminate.
    + rewrite <- Hr in *. clear Hr c returnTo'.
      destruct (String.prefix "/oauth2/authorize?" returnTo) eqn:Hp; cbn [negb].
      * split; [|split].
        -- split; [|intros _; eexists; reflexivity].
           intros _. right. apply prefix_append in Hp. destruct Hp as (rest & ->).
           exists session, rest. auto.
        -- intros H. exfalso. eapply H. reflexivity.
        -- intros e He. injection He as <-.
           destruct (session_messages session) as [[|m l]|]; reflexivity.
      * split; [|split].
        -- split; [intros (e & He); discriminate|].
           intros [Hn | (s' & rest & Hs & Hrt')]; [discriminate|].
           injection Hs as <-. rewrite Hrt in Hrt'.
           assert (Hyes : String.prefix "/oauth2/authorize?" returnTo = true).
           { apply prefix_append. exists rest. congruence. }
           congruence.
        -- reflexivity.
        -- discriminate.
  - cbn [truthy negb orb]. split; [|split].
    + split; [intros (e & He); discriminate|].
      intros [Hn | (s' & rest & Hs & Hrt')]; [discriminate|].
      injection Hs as <-. rewrite Hrt in Hrt'. discriminate.
    + reflexivity.
    + discriminate.
Qed.

(** ** Client serialisation *)

(** X15. With client ids unique among the registered clients, a registered client
    that is serialised into the session is the client that is deserialised
    from it. *)
Theorem serialize_deserialize client st :
  NoDup (map client_id (clients st)) ->
  In client (clients st) ->
  deserializeClient (snd (serializeClient client)) st = (None, Some client).
Proof.
  intros Hnd Hin. unfold deserializeClient, serializeClient, clientModel.findOne_id. cbn.
  f_equal. now apply (find_unique_key client_id).
Qed.

(** ** Granting a code and exchanging it *)

Lemma grant_code_saved env client redirectUri user scope st :
  throws env AuthCodeSave = false ->
  existsb (fun a => authCode__id a =? new_authCode_id env)%nat (authCodes st) = false ->
  grant_code env client redirectUri user scope st
  = (DoneCode (authCodeValue env),
     authCodeModel.set
       (authCodes st ++ [{| authCode__id := new_authCode_id env;
                            authCode_value := authCodeValue env;
                            authCode_clientId := client__id client;
                            authCode_userId := user__id user;
                            authCode_redirectUri := redirectUri;
                            authCode_scopes := scope |}]) st).
Proof.
  intros Hthrows Hfree. unfold grant_code. run_try. now rewrite Hthrows, Hfree.
Qed.

(** X1. A code granted to a registered client, under a value no stored code has,
    is exchanged by that client with the same redirect uri for tokens of the
    granting user and the granted scope; the exchange leaves the codes as they
    were before the grant, and whoever presents the value afterwards is
    rejected. *)
Theorem grant_code_then_exchange env env' client redirectUri user scope st :
  clientModel.findById (client__id client) st = Some client ->
  authCodeModel.findOne_value (authCodeValue env) st = None ->
  throws env AuthCodeSave = false ->
  existsb (fun a => authCode__id a =? new_authCode_id env)%nat (authCodes st) = false ->
  store_accepts env' st = true ->
  fst (grant_code env client redirectUri user scope st) = DoneCode (authCodeValue env) /\
  exists accessToken st2,
    exchange_code env' client (authCodeValue env) redirectUri
      (snd (grant_code env client redirectUri user scope st))
    = (DoneTokens (accessTokenValue env') (Some (refreshTokenValue env')) (expireAt env'),
       st2) /\
    authCodes st2 = authCodes st /\
    accessTokens st2 = accessTokens st ++ [accessToken] /\
    accessToken_value accessToken = accessTokenValue env' /\
    accessToken_clientId accessToken = client__id client /\
    accessToken_userId accessToken = Some (user__id user) /\
    accessToken_scopes accessToken = scope /\
    (forall env'' client'' redirectUri'',
       exchange_code env'' client'' (authCodeValue env) redirectUri'' st2 = (DoneFalse, st2)).
Proof.
  intros Hclient Hvalue Hthrows Hfree Hok.
  rewrite (grant_code_saved env client redirectUri user scope st Hthrows Hfree).
  cbn [fst snd]. split; [reflexivity|].
  set (doc := {| authCode__id := new_authCode_id env; authCode_value := authCodeValue env;
                 authCode_clientId := client__id client; authCode_userId := user__id user;
                 authCode_redirectUri := redirectUri; authCode_scopes := scope |}).
  assert (Hfind : authCodeModel.findOne_value (authCodeValue env)
                    (authCodeModel.set (authCodes st ++ [doc]) st) = Some doc).
  { unfold authCodeModel.findOne_value in *. cbn [authCodes authCodeModel.set].
    rewrite (find_app_last _ _ doc Hvalue). cbn. now rewrite String.eqb_refl. }
  unfold exchange_code. rewrite Hfind.
  unfold clientModel.findById in *. cbn [clients authCodeModel.set authCode_clientId doc].
  rewrite Hclient. cbn [authCode_redirectUri]. rewrite !String.eqb_refl. cbn [andb].
  run_try.
  rewrite (store_accepts_throws _ _ AuthCodeRemove Hok).
  rewrite (store_accepts_throws _ _ AccessTokenSave Hok). store_simpl.
  rewrite (store_accepts_accessToken_id _ _ Hok).
  rewrite (store_accepts_throws _ _ RefreshTokenSave Hok). store_simpl.
  rewrite (store_accepts_refreshToken_id _ _ Hok).
  rewrite (remove_appended authCode__id (authCodes st) doc Hfree).
  eexists. eexists. split; [reflexivity|].
  cbn. repeat split; auto.
  intros env'' client'' redirectUri''. unfold exchange_code.
  unfold authCodeModel.findOne_value in *. cbn [authCodes]. now rewrite Hvalue.
Qed.

(** ** Password exchange *)

(** X2. The password exchange hands out tokens only to a registered client that
    presents its registered secret, for a user found by e-mail whose password
    validates; the stored access token then has grant type [password], the
    requesting client, that user and the requested scope, and the refresh
    token is paired with it. With these checks passing and the store accepting
    the writes, the tokens are handed out. *)
Theorem exchange_password_tokens validatePasswordHash env client username password scope st :
  (forall a r e st',
     exchange_password validatePasswordHash env client username password scope st
     = (DoneTokens a r e, st') ->
     exists doc user accessToken refreshToken,
       clientModel.findOne_id (client_id client) st = Some doc /\
       client_secret doc = client_secret client /\
       userModel.findOne_email username st = Some user /\
       validatePasswordHash password (user_password user) = true /\
       accessTokens st' = accessTokens st ++ [accessToken] /\
       accessToken_value accessToken = a /\
       accessToken_grantType accessToken = "password" /\
       accessToken_clientId accessToken = client__id client /\
       accessToken_userId accessToken = Some (user__id user) /\
       accessToken_scopes accessToken = scope /\
       refreshTokens st' = refreshTokens st ++ [refreshToken] /\
       refreshToken_accessTokenId refreshToken = accessToken__id accessToken /\
       r = Some (refreshToken_value refreshToken) /\
       authCodes st' = authCodes st) /\
  (forall doc user,
     clientModel.findOne_id (client_id client) st = Some doc ->
     client_secret doc = client_secret client ->
     userModel.findOne_email username st = Some user ->
     validatePasswordHash password (user_password user) = true ->
     store_accepts env st = true ->
     exists st',
       exchange_password validatePasswordHash env client username password scope st
       = (DoneTokens (accessTokenValue env) (Some (refreshTokenValue env)) (expireAt env),
          st')).
Proof.
  unfold exchange_password. split.
  - intros a r e st'.
    destruct (clientModel.findOne_id (client_id client) st) as [doc|]; [|discriminate].
    destruct (String.eqb_spec (client_secret doc) (client_secret client)) as [Hs|];
      [|discriminate].
    destruct (userModel.findOne_email username st) as [user|]; [|discriminate].
    destruct (validatePasswordHash password (user_password user)) eqn:Hp; [|discriminate].
    run_try.
    destruct (throws env AccessTokenSave || _); [discriminate|]. store_simpl.
    destruct (throws env RefreshTokenSave || _); [discriminate|].
    intros Heq. injection Heq as <- <- <- <-.
    eexists doc, user, _, _. cbn. repeat split; auto.
  - intros doc user Hc Hs Hu Hp Hok. rewrite Hc, Hs, String.eqb_refl, Hu, Hp.
    run_try. accept_writes Hok. eexists. reflexivity.
Qed.

(** ** The store after a successful exchange *)

Lemma exchange_code_issued_store env client code redirectUri st a r e st' :
  exchange_code env client code redirectUri st = (DoneTokens a r e, st') ->
  exists authCode holder,
    code_checks st client code redirectUri authCode holder /\
    a = accessTokenValue env /\ r = Some (refreshTokenValue env) /\ e = expireAt env /\
    existsb (fun t => accessToken__id t =? new_accessToken_id env)%nat (accessTokens st)
    = false /\
    st' = refreshTokenModel.set
            (refreshTokens st ++ [paired_refreshToken env (code_accessToken env authCode holder)])
            (accessTokenModel.set
               (accessTokens st ++ [code_accessToken env authCode holder])
               (authCodeModel.set
                  (filter (fun x => negb (authCode__id x =? authCode__id authCode)%nat)
                          (authCodes st)) st)).
Proof.
  destruct (exchange_code_cases env client code redirectUri st)
    as [[_ Hres] | [(ac & _ & _ & Hres) | [(ac & h & _ & _ & _ & Hres)
       | (ac & h & Hchk & Hres)]]]; rewrite Hres; try discriminate.
  run_try.
  destruct (throws env AuthCodeRemove); [discriminate|].
  destruct (throws env AccessTokenSave); cbn [orb]; [discriminate|].
  case_duplicate Hfree; [discriminate|].
  destruct (throws env RefreshTokenSave || _); [discriminate|].
  intros Heq. injection Heq as <- <- <- <-.
  exists ac, h. repeat split; auto; apply Hchk.
Qed.

Lemma exchange_refreshToken_issued_store env client refreshToken scope st a r e st' :
  exchange_refreshToken env client refreshToken scope st = (DoneTokens a r e, st') ->
  exists doc old holder,
    refresh_checks st client refreshToken doc old holder /\
    a = accessTokenValue env /\ r = Some (refreshTokenValue env) /\ e = expireAt env /\
    existsb (fun t => accessToken__id t =? new_accessToken_id env)%nat (accessTokens st)
    = false /\
    st' = refreshTokenModel.set
            (filter (fun x => negb (refreshToken__id x =? refreshToken__id doc)%nat)
                    (refreshTokens st)
             ++ [paired_refreshToken env (refreshed_accessToken env old holder)])
            (accessTokenModel.set
               (filter (fun x => negb (accessToken__id x =? accessToken__id old)%nat)
                       (accessTokens st ++ [refreshed_accessToken env old holder]))
               st).
Proof.
  destruct (exchange_refreshToken_cases env client refreshToken scope st)
    as [[_ Hres] | [(doc & _ & _ & Hres) | [(doc & old & h & _ & _ & _ & _ & Hres)
       | (doc & old & h & Hchk & Hres)]]]; rewrite Hres; try discriminate.
  run_try.
  destruct (throws env AccessTokenSave); cbn [orb]; [discriminate|].
  case_duplicate Hfree; [discriminate|].
  destruct (throws env AccessTokenRemove); [discriminate|].
  destruct (throws env RefreshTokenRemove); [discriminate|]. store_simpl.
  destruct (throws env RefreshTokenSave || _); [discriminate|].
  intros Heq. injection Heq as <- <- <- <-.
  exists doc, old, h. repeat split; auto; apply Hchk.
Qed.

(** ** Introspecting what an exchange issued *)

(** X9. The access token a code exchange has just issued, under a non-empty value
    no stored token had, is reported active to every requester with the
    exchanging client's id, with the scopes of the code, the issued expiry and
    the name of the code's user (if that user is stored); to a requester with
    another id it is reported inactive. *)
Theorem introspect_issued_by_code env client code redirectUri st authCode a r e st' :
  authCodeModel.findOne_value code st = Some authCode ->
  exchange_code env client code redirectUri st = (DoneTokens a r e, st') ->
  a <> "" ->
  accessTokenModel.findOne_value a st = None ->
  (forall req_user,
     client_id req_user = client_id client ->
     tokenIntrospectionEndpoint req_user (Some a) st'
     = Active (client_id client) (join_scopes (authCode_scopes authCode)) e
              (option_map user_name (userModel.findById (authCode_userId authCode) st))) /\
  (forall req_user,
     client_id req_user <> client_id client ->
     tokenIntrospectionEndpoint req_user (Some a) st' = Inactive).
Proof.
  intros Hfind Hex Hne Hfresh.
  apply exchange_code_issued_store in Hex.
  destruct Hex as (ac & h & (Hf & Hp & Hid & Huri) & -> & -> & -> & _ & ->).
  assert (ac = authCode) by congruence. subst ac.
  assert (Hfound : accessTokenModel.findOne_value (accessTokenValue env)
            (refreshTokenModel.set
               (refreshTokens st ++ [paired_refreshToken env (code_accessToken env authCode h)])
               (accessTokenModel.set
                  (accessTokens st ++ [code_accessToken env authCode h])
                  (authCodeModel.set
                     (filter (fun x => negb (authCode__id x =? authCode__id authCode)%nat)
                             (authCodes st)) st)))
            = Some (code_accessToken env authCode h)).
  { unfold accessTokenModel.findOne_value in *. store_simpl.
    rewrite (find_app_last _ _ _ Hfresh). cbn. now rewrite String.eqb_refl. }
  assert (Hholder := findById_client__id _ _ _ Hp).
  split; intros req_user Hreq; unfold tokenIntrospectionEndpoint;
    destruct (accessTokenValue env) as [|c v] eqn:Hv; try contradiction;
    cbn [truthy]; rewrite Hfound;
    unfold clientModel.findById, userModel.findById in *;
    cbn [clients users accessToken_clientId accessToken_userId accessToken_scopes
         accessToken_expireAt code_accessToken
         refreshTokenModel.set accessTokenModel.set authCodeModel.set];
    rewrite Hholder, Hp.
  - rewrite Hid, <- Hreq, String.eqb_refl. reflexivity.
  - assert (Hneq : client_id h <> client_id req_user) by congruence.
    apply String.eqb_neq in Hneq. now rewrite Hneq.
Qed.

(** ** Immediate approval after tokens were issued *)

Lemma immediate_after_append client user scope st st' t :
  accessTokens st' = accessTokens st ++ [t] ->
  holds_token client user t ->
  authorization_immediate client user scope st'
  = match accessTokenModel.findOne_clientId_userId (client__id client) (user__id user) st with
    | Some _ => authorization_immediate client user scope st
    | None => isScopeEquals (accessToken_scopes t) scope
    end.
Proof.
  intros Happ Hholds. unfold authorization_immediate, accessTokenModel.findOne_clientId_userId.
  rewrite Happ.
  destruct (find _ (accessTokens st)) as [first|] eqn:Hf.
  - now rewrite (find_app_first _ _ t first Hf).
  - rewrite (find_app_last _ _ t Hf). now rewrite (holds_token_test _ _ _ Hholds).
Qed.

(** X11. After a code exchange has issued tokens, a new authorization request of
    the code's client by the code's user is approved at once exactly when it
    asks for the scope set of the code, provided the user held no token for
    the client before; if the user did, the answer is what it was before the
    exchange. *)
Theorem immediate_after_exchange_code env client code redirectUri st authCode a r e st'
    client' user' scope' :
  authCodeModel.findOne_value code st = Some authCode ->
  exchange_code env client code redirectUri st = (DoneTokens a r e, st') ->
  client__id client' = authCode_clientId authCode ->
  user__id user' = authCode_userId authCode ->
  (accessTokenModel.findOne_clientId_userId (client__id client') (user__id user') st = None ->
   (authorization_immediate client' user' scope' st' = true <->
    forall s, In s (authCode_scopes authCode) <-> In s scope')) /\
  (accessTokenModel.findOne_clientId_userId (client__id client') (user__id user') st <> None ->
   authorization_immediate client' user' scope' st'
   = authorization_immediate client' user' scope' st).
Proof.
  intros Hfind Hex Hc Hu.
  apply exchange_code_issued_store in Hex.
  destruct Hex as (ac & h & (Hf & Hp & Hid & Huri) & -> & -> & -> & _ & ->).
  assert (ac = authCode) by congruence. subst ac.
  assert (Hholder := findById_client__id _ _ _ Hp).
  assert (Himm := immediate_after_append client' user' scope' st
            (refreshTokenModel.set
               (refreshTokens st ++ [paired_refreshToken env (code_accessToken env authCode h)])
               (accessTokenModel.set
                  (accessTokens st ++ [code_accessToken env authCode h])
                  (authCodeModel.set
                     (filter (fun x => negb (authCode__id x =? authCode__id authCode)%nat)
                             (authCodes st)) st)))
            (code_accessToken env authCode h) eq_refl).
  rewrite Himm; [|split; cbn; congruence].
  split; intros Hprior.
  - rewrite Hprior. cbn [accessToken_scopes code_accessToken]. apply isScopeEquals_spec.
  - destruct (accessTokenModel.findOne_clientId_userId _ _ st); [reflexivity | contradiction].
Qed.

(** ** Implicit grant *)

(** X3. The implicit grant never writes a refresh token and returns none; the
    access token it stores has grant type [token], the client, the user and
    the approved scope; when the save fails the store is left as it was. If
    the user held no token for the client, the next authorization request is
    approved at once exactly when it asks for the approved scope set. *)
Theorem grant_token_implicit env client user scope st :
  refreshTokens (snd (grant_token env client user scope st)) = refreshTokens st /\
  (forall a r e st',
     grant_token env client user scope st = (DoneTokens a r e, st') ->
     r = None /\
     exists accessToken,
       accessTokens st' = accessTokens st ++ [accessToken] /\
       accessToken_value accessToken = a /\
       accessToken_expireAt accessToken = e /\
       accessToken_grantType accessToken = "token" /\
       accessToken_clientId accessToken = client__id client /\
       accessToken_userId accessToken = Some (user__id user) /\
       accessToken_scopes accessToken = scope /\
       (accessTokenModel.findOne_clientId_userId (client__id client) (user__id user) st
        = None ->
        forall scope',
          authorization_immediate client user scope' st' = true <->
          forall s, In s scope <-> In s scope')) /\
  (issued (fst (grant_token env client user scope st)) = false ->
   snd (grant_token env client user scope st) = st).
Proof.
  unfold grant_token.
  set (t := {| accessToken__id := new_accessToken_id env;
               accessToken_value := accessTokenValue env;
               accessToken_clientId := client__id client;
               accessToken_userId := Some (user__id user);
               accessToken_scopes := scope;
               accessToken_grantType := "token";
               accessToken_expireAt := expireAt env |}).
  run_try.
  destruct (throws env AccessTokenSave || _); cbn [fst snd].
  - repeat split; try discriminate.
  - split; [reflexivity|]. split; [|discriminate].
    intros a r e st' Heq. injection Heq as <- <- <- <-. split; [reflexivity|].
    exists t. do 7 (split; [reflexivity|]).
    intros Hprior scope'.
    rewrite (immediate_after_append client user scope' st
               (accessTokenModel.set (accessTokens st ++ [t]) st) t eq_refl);
      [|split; reflexivity].
    rewrite Hprior. apply isScopeEquals_spec.
Qed.

(** ** Refresh-token rotation *)

Lemma find_filter_app_last {A} (p q : A -> bool) (l : list A) x :
  find p l = None -> q x = true -> p x = true -> find p (filter q (l ++ [x])) = Some x.
Proof.
  intros Hnone Hq Hp. rewrite filter_app. cbn. rewrite Hq.
  rewrite find_app_last; [now rewrite Hp|].
  apply find_filter_none. intros y Hin Hy.
  apply (find_none _ _ Hnone) in Hin. congruence.
Qed.

Lemma unique_value_eq {A} (value : A -> string) (l : list A) x y :
  NoDup (map value l) -> In x l -> In y l -> value x = value y -> x = y.
Proof.
  induction l as [|z l IH]; cbn; intros Hnd Hx Hy Hv; [contradiction|].
  inversion Hnd as [|? ? Hnotin Hnd']; subst.
  destruct Hx as [-> | Hx]; destruct Hy as [-> | Hy]; auto.
  - exfalso. apply Hnotin. rewrite Hv. now apply in_map.
  - exfalso. apply Hnotin. rewrite <- Hv. now apply in_map.
Qed.

Lemma introspect_not_found req_user token st :
  accessTokenModel.findOne_value token st = None ->
  tokenIntrospectionEndpoint req_user (Some token) st = Inactive.
Proof.
  intros Hf. unfold tokenIntrospectionEndpoint.
  destruct token as [|c token]; [reflexivity|]. cbn [truthy]. now rewrite Hf.
Qed.

(** X5. After a refresh exchange has issued a new pair (its values non-empty and
    new to the store, access token values unique): the old access token is
    reported inactive to everyone, the new one is reported active to the
    client with the scopes of the old one, the old refresh token value is
    rejected from then on, and the new refresh token value passes the checks
    of the next refresh exchange, which issues again when the store accepts
    its writes. *)
Theorem refresh_rotation env client refreshToken scope st doc old a r e st' :
  refreshTokenModel.findOne_value refreshToken st = Some doc ->
  accessTokenModel.findById (refreshToken_accessTokenId doc) st = Some old ->
  exchange_refreshToken env client refreshToken scope st = (DoneTokens a r e, st') ->
  a <> "" ->
  accessTokenModel.findOne_value a st = None ->
  refreshTokenModel.findOne_value (refreshTokenValue env) st = None ->
  NoDup (map accessToken_value (accessTokens st)) ->
  NoDup (map refreshToken_value (refreshTokens st)) ->
  (forall req_user,
     tokenIntrospectionEndpoint req_user (Some (accessToken_value old)) st' = Inactive) /\
  tokenIntrospectionEndpoint client (Some a) st'
  = Active (client_id client) (join_scopes (accessToken_scopes old)) e
           (match accessToken_userId old with
            | Some uid => option_map user_name (userModel.findById uid st)
            | None => None
            end) /\
  (forall env2 client2 scope2,
     exchange_refreshToken env2 client2 refreshToken scope2 st' = (DoneFalse, st')) /\
  (forall env2 scope2,
     store_accepts env2 st' = true ->
     fst (exchange_refreshToken env2 client (refreshTokenValue env) scope2 st')
     = DoneTokens (accessTokenValue env2) (Some (refreshTokenValue env2)) (expireAt env2)).
Proof.
  intros Hfind Hold Hex Hne Hafresh Hrfresh Hatv Hrtv.
  apply exchange_refreshToken_issued_store in Hex.
  destruct Hex as (doc' & old' & h & (Hf & Ho & Hp & Hid) & -> & -> & -> & Hfree & ->).
  assert (doc' = doc) by congruence. subst doc'.
  assert (old' = old) by congruence. subst old'.
  destruct (findById_accessToken _ _ _ Hold) as [Hold_in Hold_id].
  destruct (findOne_refreshToken_value _ _ _ Hfind) as [Hdoc_in Hdoc_v].
  assert (Hholder := findById_client__id _ _ _ Hp).
  set (new := refreshed_accessToken env old h).
  assert (Hnew_id : negb (accessToken__id new =? accessToken__id old)%nat = true).
  { apply negb_true_iff, Nat.eqb_neq. intros Heq.
    apply (existsb_id_false accessToken__id (new_accessToken_id env) _ old Hfree Hold_in).
    now symmetry. }
  assert (Hnew_found : accessTokenModel.findOne_value (accessTokenValue env)
            (refreshTokenModel.set
               (filter (fun x => negb (refreshToken__id x =? refreshToken__id doc)%nat)
                       (refreshTokens st) ++ [paired_refreshToken env new])
               (accessTokenModel.set
                  (filter (fun x => negb (accessToken__id x =? accessToken__id old)%nat)
                          (accessTokens st ++ [new])) st)) = Some new).
  { unfold accessTokenModel.findOne_value in *. store_simpl.
    apply find_filter_app_last; [exact Hafresh | exact Hnew_id |].
    cbn. apply String.eqb_refl. }
  split; [|split; [|split]].
  - intros req_user. apply introspect_not_found.
    unfold accessTokenModel.findOne_value. store_simpl.
    apply find_filter_none. intros t Hin Ht. apply String.eqb_eq in Ht.
    apply in_app_or in Hin. destruct Hin as [Hin | [<- | []]].
    + rewrite (unique_value_eq accessToken_value _ t old Hatv Hin Hold_in Ht).
      now rewrite Nat.eqb_refl.
    + exfalso. cbn in Ht. unfold accessTokenModel.findOne_value in Hafresh.
      apply (find_none _ _ Hafresh) in Hold_in. rewrite <- Ht, String.eqb_refl in Hold_in.
      discriminate.
  - unfold tokenIntrospectionEndpoint.
    destruct (accessTokenValue env) as [|c v] eqn:Hv; [contradiction|].
    cbn [truthy]. rewrite Hnew_found.
    unfold clientModel.findById, userModel.findById in *.
    cbn [clients users accessToken_clientId accessToken_userId accessToken_scopes
         accessToken_expireAt refreshed_accessToken new
         refreshTokenModel.set accessTokenModel.set].
    rewrite Hholder, Hp, Hid, String.eqb_refl. reflexivity.
  - intros env2 client2 scope2. apply exchange_refreshToken_spent. store_simpl.
    rewrite (holding_app_other refreshToken_value).
    + apply (holding_remove_found refreshToken_value refreshToken__id);
        [now apply holding_NoDup | exact Hdoc_in | exact Hdoc_v].
    + cbn. intros Heq. unfold refreshTokenModel.findOne_value in Hrfresh.
      apply (find_none _ _ Hrfresh) in Hdoc_in. rewrite Hdoc_v, Heq, String.eqb_refl in Hdoc_in.
      discriminate.
  - intros env2 scope2 Hok.
    apply (exchange_refreshToken_issues env2 client (refreshTokenValue env) scope2 _
             (paired_refreshToken env new) new h); [|exact Hok].
    unfold refresh_checks. split; [|split; [|split]].
    + unfold refreshTokenModel.findOne_value in *. store_simpl.
      rewrite find_app_last; [cbn; now rewrite String.eqb_refl|].
      apply find_filter_none. intros x Hin Hx.
      apply (find_none _ _ Hrfresh) in Hin. congruence.
    + unfold accessTokenModel.findById. store_simpl.
      apply find_filter_app_last; [| exact Hnew_id | cbn; apply Nat.eqb_refl].
      cbn. now apply find_none_existsb.
    + unfold clientModel.findById in *. cbn [clients accessToken_clientId new
        refreshed_accessToken refreshTokenModel.set accessTokenModel.set].
      now rewrite Hholder.
    + exact Hid.
Qed.

(** ** A refresh exchange that fails half way *)

(** X6. When the removal of the old refresh token throws after the old access
    token has been removed, the handler reports the error and the store keeps
    the refresh token without its access token; every later exchange of that
    value, by any client, then dereferences [null] outside the [try]. *)
Theorem refresh_half_done env client refreshToken scope st doc old holder :
  refresh_checks st client refreshToken doc old holder ->
  throws env AccessTokenSave = false ->
  existsb (fun t => accessToken__id t =? new_accessToken_id env)%nat (accessTokens st)
  = false ->
  throws env AccessTokenRemove = false ->
  throws env RefreshTokenRemove = true ->
  exists st1,
    exchange_refreshToken env client refreshToken scope st
    = (DoneErr (StoreError RefreshTokenRemove), st1) /\
    refreshTokens st1 = refreshTokens st /\
    accessTokenModel.findById (accessToken__id old) st1 = None /\
    (forall env' client' scope',
       exchange_refreshToken env' client' refreshToken scope' st1 = (Uncaught, st1)).
Proof.
  intros (Hf & Ho & Hp & Hid) Hsave Hfree Hremove Hthrow.
  destruct (findById_accessToken _ _ _ Ho) as [_ Hold_id].
  unfold exchange_refreshToken at 1. rewrite Hf, Ho, Hp, Hid, String.eqb_refl.
  run_try. rewrite Hsave, Hfree, Hremove, Hthrow. cbn [orb].
  eexists. split; [reflexivity|]. split; [reflexivity|].
  assert (Hgone : forall _id inner,
             _id = accessToken__id old ->
             accessTokenModel.findById _id
               (accessTokenModel.set
                  (filter (fun t => negb (accessToken__id t =? accessToken__id old)%nat)
                          (accessTokens st ++ [refreshed_accessToken env old holder])) inner)
             = None).
  { intros _id inner ->. unfold accessTokenModel.findById. store_simpl.
    apply find_remove_by_id_none. }
  split; [now apply Hgone|].
  intros env' client' scope'. unfold exchange_refreshToken.
  unfold refreshTokenModel.findOne_value in *. cbn [refreshTokens accessTokenModel.set].
  rewrite Hf. now rewrite (Hgone _ _ (eq_sym Hold_id)).
Qed.

(** ** References keep resolving *)

Lemma isSome_find_id {A} (key : A -> ObjectId) (_id : ObjectId) (l : list A) :
  isSome (find (fun x => key x =? _id)%nat l) = true <-> exists x, In x l /\ key x = _id.
Proof.
  destruct (find (fun x => key x =? _id)%nat l) as [x|] eqn:Hf; cbn.
  - apply find_some in Hf. destruct Hf as [Hin Hk]. apply Nat.eqb_eq in Hk.
    split; [intros _; now exists x | reflexivity].
  - split; [discriminate|]. intros (x & Hin & Hk).
    apply (find_none _ _ Hf) in Hin. apply Nat.eqb_neq in Hin. contradiction.
Qed.

Lemma distinct_NoDup l : distinct l = true <-> NoDup l.
Proof.
  induction l as [|x l IH]; cbn.
  - split; [constructor | reflexivity].
  - rewrite andb_true_iff, negb_true_iff, IH. split.
    + intros [Hx Hl]. constructor; [|assumption]. intros Hin.
      assert (existsb (Nat.eqb x) l = true); [|congruence].
      apply existsb_exists. exists x. split; [assumption | apply Nat.eqb_refl].
    + intros Hnd. inversion Hnd as [|? ? Hnotin Hl]; subst. split; [|assumption].
      destruct (existsb (Nat.eqb x) l) eqn:Hex; [|reflexivity].
      apply existsb_exists in Hex. destruct Hex as (y & Hin & Hy).
      apply Nat.eqb_eq in Hy. subst y. contradiction.
Qed.

Lemma references_resolve_iff st :
  references_resolve st = true <->
  resolving (clients st) (authCodes st) (accessTokens st) (refreshTokens st).
Proof.
  unfold references_resolve, resolving, clientModel.findById, accessTokenModel.findById.
  rewrite !andb_true_iff, !forallb_forall, distinct_NoDup.
  split.
  - intros [[[Ha Ht] Hr] Hd]. repeat split; [| | |exact Hd].
    + intros a Hin. now apply isSome_find_id, Ha.
    + intros t Hin. now apply isSome_find_id, Ht.
    + intros r Hin. now apply isSome_find_id, Hr.
  - intros (Ha & Ht & Hr & Hd). repeat split; [| | |exact Hd].
    + intros a Hin. now apply isSome_find_id, Ha.
    + intros t Hin. now apply isSome_find_id, Ht.
    + intros r Hin. now apply isSome_find_id, Hr.
Qed.

Lemma NoDup_map_filter {A B} (f : A -> B) (q : A -> bool) (l : list A) :
  NoDup (map f l) -> NoDup (map f (filter q l)).
Proof.
  induction l as [|x l IH]; cbn; intros Hnd; [constructor|].
  inversion Hnd as [|? ? Hnotin Hl]; subst.
  destruct (q x); cbn; [|now apply IH].
  constructor; [|now apply IH].
  intros Hin. apply Hnotin. apply in_map_iff in Hin. destruct Hin as (y & Hy & Hin).
  apply filter_In in Hin. apply in_map_iff. exists y. tauto.
Qed.

Lemma NoDup_map_eq {A B} (f : A -> B) (l : list A) x y :
  NoDup (map f l) -> In x l -> In y l -> f x = f y -> x = y.
Proof.
  induction l as [|z l IH]; cbn; intros Hnd Hx Hy Hv; [contradiction|].
  inversion Hnd as [|? ? Hnotin Hnd']; subst.
  destruct Hx as [-> | Hx]; destruct Hy as [-> | Hy]; auto.
  - exfalso. apply Hnotin. rewrite Hv. now apply in_map.
  - exfalso. apply Hnotin. rewrite <- Hv. now apply in_map.
Qed.

Section Resolving.
Context (cs : list Client) (acs : list AuthCode) (ats : list AccessToken)
        (rts : list RefreshToken).
Hypothesis Hres : resolving cs acs ats rts.

Lemma resolving_remove_authCode q : resolving cs (filter q acs) ats rts.
Proof.
  destruct Hres as (Ha & Ht & Hr & Hd). repeat split; auto.
  intros a Hin. apply filter_In in Hin. now apply Ha.
Qed.

Lemma resolving_add_authCode a :
  (exists c, In c cs /\ client__id c = authCode_clientId a) ->
  resolving cs (acs ++ [a]) ats rts.
Proof.
  destruct Hres as (Ha & Ht & Hr & Hd). intros Hc. repeat split; auto.
  intros a' Hin. apply in_app_or in Hin. destruct Hin as [Hin | [<- | []]]; auto.
Qed.

Lemma resolving_add_accessToken t :
  (exists c, In c cs /\ client__id c = accessToken_clientId t) ->
  resolving cs acs (ats ++ [t]) rts.
Proof.
  destruct Hres as (Ha & Ht & Hr & Hd). intros Hc. repeat split; auto.
  - intros t' Hin. apply in_app_or in Hin. destruct Hin as [Hin | [<- | []]]; auto.
  - intros r Hin. destruct (Hr r Hin) as (t' & Hin' & Hid).
    exists t'. split; [apply in_or_app; now left | assumption].
Qed.

(** an [_id] no access token has is referred to by no refresh token *)
Lemma resolving_unreferenced _id r :
  existsb (fun t => accessToken__id t =? _id)%nat ats = false ->
  In r rts -> refreshToken_accessTokenId r <> _id.
Proof.
  destruct Hres as (_ & _ & Hr & _). intros Hfree Hin Heq.
  destruct (Hr r Hin) as (t & Hin' & Hid).
  apply (existsb_id_false accessToken__id _id ats t Hfree Hin'). congruence.
Qed.

Lemma resolving_add_refreshToken r :
  (exists t, In t ats /\ accessToken__id t = refreshToken_accessTokenId r) ->
  (forall r', In r' rts -> refreshToken_accessTokenId r' <> refreshToken_accessTokenId r) ->
  resolving cs acs ats (rts ++ [r]).
Proof.
  destruct Hres as (Ha & Ht & Hr & Hd). intros Hex Hnew. repeat split; auto.
  - intros r' Hin. apply in_app_or in Hin. destruct Hin as [Hin | [<- | []]]; auto.
  - rewrite map_app. cbn. apply NoDup_app; [exact Hd | repeat constructor; intros [] |].
    intros x Hin [<- | []]. apply in_map_iff in Hin. destruct Hin as (r' & Heq & Hin).
    now apply (Hnew r' Hin).
Qed.

Lemma resolving_remove_refreshToken q : resolving cs acs ats (filter q rts).
Proof.
  destruct Hres as (Ha & Ht & Hr & Hd). repeat split; auto.
  - intros r Hin. apply filter_In in Hin. now apply Hr.
  - now apply NoDup_map_filter.
Qed.

(** removing an access token together with the refresh token paired with it *)
Lemma resolving_remove_pair doc old_id :
  In doc rts -> refreshToken_accessTokenId doc = old_id ->
  resolving cs acs
    (filter (fun t => negb (accessToken__id t =? old_id)%nat) ats)
    (filter (fun r => negb (refreshToken__id r =? refreshToken__id doc)%nat) rts).
Proof.
  destruct Hres as (Ha & Ht & Hr & Hd). intros Hdoc Hid. repeat split; auto.
  - intros t Hin. apply filter_In in Hin. now apply Ht.
  - intros r Hin. apply (in_remove_by_id refreshToken__id) in Hin.
    destruct Hin as [Hin Hne]. destruct (Hr r Hin) as (t & Hin' & Ht').
    exists t. split; [|assumption]. apply (in_remove_by_id accessToken__id).
    split; [assumption|]. intros Heq. apply Hne.
    assert (r = doc); [|now subst].
    apply (NoDup_map_eq refreshToken_accessTokenId rts); auto. congruence.
  - now apply NoDup_map_filter.
Qed.
End Resolving.

Lemma findById_client_in _id st c :
  clientModel.findById _id st = Some c ->
  exists c', In c' (clients st) /\ client__id c' = _id.
Proof.
  unfold clientModel.findById. intros H. apply find_some in H.
  destruct H as [Hin Hk]. apply Nat.eqb_eq in Hk. now exists c.
Qed.

Ltac resolve_goal := apply references_resolve_iff; cbn [snd]; store_simpl.

(** X7. Reference integrity is an invariant of the grants and exchanges. From a
    store in which every code and access token refers to a stored client,
    every refresh token to a stored access token, and no two refresh tokens to
    the same access token, every grant and exchange by a stored client leads,
    whatever its outcome, to such a store again; for the refresh exchange this
    holds as long as the removal of the old refresh token does not throw. *)
Theorem references_kept validatePasswordHash env client st :
  references_resolve st = true ->
  (forall code redirectUri,
     references_resolve (snd (exchange_code env client code redirectUri st)) = true) /\
  (forall refreshToken scope,
     throws env RefreshTokenRemove = false ->
     references_resolve (snd (exchange_refreshToken env client refreshToken scope st))
     = true) /\
  (isSome (clientModel.findById (client__id client) st) = true ->
   (forall redirectUri user scope,
      references_resolve (snd (grant_code env client redirectUri user scope st)) = true) /\
   (forall user scope,
      references_resolve (snd (grant_token env client user scope st)) = true) /\
   (forall username password scope,
      references_resolve
        (snd (exchange_password validatePasswordHash env client username password scope st))
      = true) /\
   (forall scope,
      references_resolve (snd (exchange_clientCredentials env client scope st)) = true)).
Proof.
  intros Hinv. assert (Hres := proj1 (references_resolve_iff st) Hinv).
  assert (Hsaved : forall t,
             (exists c, In c (clients st) /\ client__id c = accessToken_clientId t) ->
             forall rt,
               refreshToken_accessTokenId rt = accessToken__id t ->
               existsb (fun x => accessToken__id x =? accessToken__id t)%nat (accessTokens st)
               = false ->
               resolving (clients st) (authCodes st) (accessTokens st ++ [t])
                 (refreshTokens st ++ [rt])).
  { intros t Hc rt Hrt Hfree. apply resolving_add_refreshToken.
    - now apply resolving_add_accessToken.
    - exists t. split; [apply in_or_app; right; now left | now symmetry].
    - intros r' Hin. rewrite Hrt.
      now apply (resolving_unreferenced _ _ _ _ Hres (accessToken__id t) r'). }
  split; [|split].
  - intros code redirectUri.
    destruct (exchange_code_cases env client code redirectUri st)
      as [[_ Hr] | [(ac & _ & _ & Hr) | [(ac & h & _ & _ & _ & Hr)
         | (ac & h & (_ & Hp & _) & Hr)]]]; rewrite Hr; auto.
    assert (Hh : exists c, In c (clients st) /\ client__id c = client__id h).
    { rewrite (findById_client__id _ _ _ Hp). eapply findById_client_in; eauto. }
    run_try.
    destruct (throws env AuthCodeRemove); [exact Hinv|].
    destruct (throws env AccessTokenSave); cbn [orb];
      [resolve_goal; now apply resolving_remove_authCode|].
    case_duplicate Hfree; [resolve_goal; now apply resolving_remove_authCode|].
    destruct (throws env RefreshTokenSave); cbn [orb];
      [resolve_goal; apply resolving_add_accessToken;
       [now apply resolving_remove_authCode | exact Hh]|].
    case_duplicate Hfree';
      [resolve_goal; apply resolving_add_accessToken;
       [now apply resolving_remove_authCode | exact Hh]|].
    resolve_goal.
    destruct (Hsaved (code_accessToken env ac h) Hh
                (paired_refreshToken env (code_accessToken env ac h)) eq_refl Hfree)
      as (_ & Ht & Hrt & Hd).
    destruct (resolving_remove_authCode _ _ _ _ Hres
                (fun a => negb (authCode__id a =? authCode__id ac)%nat)) as (Ha & _).
    repeat split; assumption.
  - intros refreshToken scope Hremove.
    destruct (exchange_refreshToken_cases env client refreshToken scope st)
      as [[_ Hr] | [(doc & _ & _ & Hr) | [(doc & old & h & _ & _ & _ & _ & Hr)
         | (doc & old & h & (Hf & Ho & Hp & _) & Hr)]]]; rewrite Hr; auto.
    assert (Hh : exists c, In c (clients st) /\ client__id c = client__id h).
    { rewrite (findById_client__id _ _ _ Hp). eapply findById_client_in; eauto. }
    destruct (findById_accessToken _ _ _ Ho) as [Hold_in Hold_id].
    destruct (findOne_refreshToken_value _ _ _ Hf) as [Hdoc_in _].
    set (new := refreshed_accessToken env old h).
    assert (Hadd : resolving (clients st) (authCodes st) (accessTokens st ++ [new])
                     (refreshTokens st))
      by now apply resolving_add_accessToken.
    assert (Hpair := resolving_remove_pair _ _ _ _ Hadd doc (accessToken__id old) Hdoc_in
                       (eq_sym Hold_id)).
    run_try. fold new.
    destruct (throws env AccessTokenSave); cbn [orb]; [exact Hinv|].
    case_duplicate Hfree; [exact Hinv|].
    destruct (throws env AccessTokenRemove); [resolve_goal; exact Hadd|].
    rewrite Hremove. store_simpl.
    destruct (throws env RefreshTokenSave); cbn [orb]; [resolve_goal; exact Hpair|].
    case_duplicate Hfree'; [resolve_goal; exact Hpair|].
    resolve_goal. apply resolving_add_refreshToken; [exact Hpair | |].
    + exists new. split; [|reflexivity]. apply (in_remove_by_id accessToken__id).
      split; [apply in_or_app; right; now left|]. intros Heq.
      apply (existsb_id_false accessToken__id (new_accessToken_id env) _ old Hfree Hold_in).
      now symmetry.
    + intros r' Hin. apply filter_In in Hin. destruct Hin as [Hin _].
      now apply (resolving_unreferenced _ _ _ _ Hres (new_accessToken_id env) r').
  - intros Hstored. unfold clientModel.findById in Hstored.
    apply isSome_find_id in Hstored.
    split; [|split; [|split]].
    + intros redirectUri user scope. unfold grant_code. run_try.
      destruct (throws env AuthCodeSave || _); [exact Hinv|].
      resolve_goal. now apply resolving_add_authCode.
    + intros user scope. unfold grant_token. run_try.
      destruct (throws env AccessTokenSave || _); [exact Hinv|].
      resolve_goal. now apply resolving_add_accessToken.
    + intros username password scope. unfold exchange_password.
      destruct (clientModel.findOne_id (client_id client) st) as [doc|]; auto.
      destruct (client_secret doc =? client_secret client); auto.
      destruct (userModel.findOne_email username st) as [user|]; auto.
      destruct (validatePasswordHash password (user_password user)); auto.
      run_try.
      destruct (throws env AccessTokenSave); cbn [orb]; [exact Hinv|].
      case_duplicate Hfree; [exact Hinv|].
      destruct (throws env RefreshTokenSave); cbn [orb];
        [resolve_goal; now apply resolving_add_accessToken|].
      case_duplicate Hfree'; [resolve_goal; now apply resolving_add_accessToken|].
      resolve_goal. now apply Hsaved.
    + intros scope. unfold exchange_clientCredentials.
      destruct (clientModel.findOne_id (client_id client) st) as [doc|]; auto.
      destruct ((0 <? List.length (client_scopes doc))%nat
                && (client_secret doc =? client_secret client)).
      * run_try. destruct (throws env AccessTokenSave || _); [exact Hinv|].
        resolve_goal. now apply resolving_add_accessToken.
      * destruct (List.length (client_scopes doc) =? 0)%nat; exact Hinv.
Qed.

(** ** Introspecting tokens issued for credentials *)

Lemma introspect_appended req_user st st' t :
  accessTokens st' = accessTokens st ++ [t] ->
  clients st' = clients st -> users st' = users st ->
  accessToken_value t <> "" ->
  accessTokenModel.findOne_value (accessToken_value t) st = None ->
  clientModel.findById (accessToken_clientId t) st = Some req_user ->
  tokenIntrospectionEndpoint req_user (Some (accessToken_value t)) st'
  = Active (client_id req_user) (join_scopes (accessToken_scopes t)) (accessToken_expireAt t)
           (match accessToken_userId t with
            | Some uid => option_map user_name (userModel.findById uid st)
            | None => None
            end).
Proof.
  intros Hat Hcl Hus Hne Hfresh Hclient. unfold tokenIntrospectionEndpoint.
  destruct (accessToken_value t) as [|c v] eqn:Hv; [contradiction|]. cbn [truthy].
  unfold accessTokenModel.findOne_value, clientModel.findById, userModel.findById in *.
  rewrite Hat, Hcl, Hus, (find_app_last _ _ t Hfresh), Hv, String.eqb_refl, Hclient,
    String.eqb_refl.
  reflexivity.
Qed.

(** X10. A token that the password or the client-credentials exchange has just
    issued to a stored client, under a non-empty value no stored token had, is
    reported active to that client: with the requested scope and the name of
    the authenticated user for the password grant, with the client's
    registered scopes and no user name for client credentials. *)
Theorem introspect_issued_for_credentials validatePasswordHash env client st :
  clientModel.findById (client__id client) st = Some client ->
  (forall username password scope user a r e st',
     userModel.findOne_email username st = Some user ->
     exchange_password validatePasswordHash env client username password scope st
     = (DoneTokens a r e, st') ->
     a <> "" ->
     accessTokenModel.findOne_value a st = None ->
     tokenIntrospectionEndpoint client (Some a) st'
     = Active (client_id client) (join_scopes scope) e
              (option_map user_name (userModel.findById (user__id user) st))) /\
  (forall scope doc a r e st',
     clientModel.findOne_id (client_id client) st = Some doc ->
     exchange_clientCredentials env client scope st = (DoneTokens a r e, st') ->
     a <> "" ->
     accessTokenModel.findOne_value a st = None ->
     tokenIntrospectionEndpoint client (Some a) st'
     = Active (client_id client) (join_scopes (client_scopes doc)) e None).
Proof.
  intros Hstored. split.
  - intros username password scope user a r e st' Hu. unfold exchange_password.
    destruct (clientModel.findOne_id (client_id client) st) as [doc|]; [|discriminate].
    destruct (client_secret doc =? client_secret client); [|discriminate].
    rewrite Hu.
    destruct (validatePasswordHash password (user_password user)); [|discriminate].
    run_try.
    destruct (throws env AccessTokenSave || _); [discriminate|]. store_simpl.
    destruct (throws env RefreshTokenSave || _); [discriminate|].
    intros Heq Hne Hfresh. injection Heq as <- <- <- <-.
    match goal with
    | |- context [accessTokenModel.set (accessTokens st ++ [?t]) st] =>
      apply (introspect_appended client st _ t); auto
    end.
  - intros scope doc a r e st' Hdoc. unfold exchange_clientCredentials. rewrite Hdoc.
    destruct ((0 <? List.length (client_scopes doc))%nat
              && (client_secret doc =? client_secret client)).
    + run_try. destruct (throws env AccessTokenSave || _); [discriminate|].
      intros Heq Hne Hfresh. injection Heq as <- <- <- <-.
      match goal with
      | |- context [accessTokenModel.set (accessTokens st ++ [?t]) st] =>
        apply (introspect_appended client st _ t); auto
      end.
    + destruct (List.length (client_scopes doc) =? 0)%nat; discriminate.
Qed.

(** ** Requests in flight settle *)

Section Settling.
Context {T : Type} (step : nat -> T -> Store -> T * Store) (remaining : T -> nat).
Hypothesis step_remaining :
  forall i t st, (remaining (fst (step i t st)) <= pred (remaining t))%nat.

Lemma nth_error_set_nth_same i (t : T) tasks :
  (i < List.length tasks)%nat -> nth_error (set_nth i t tasks) i = Some t.
Proof.
  revert i. induction tasks as [|t0 tasks IH]; intros [|i] Hlt; cbn in *; try lia; auto.
  apply IH. lia.
Qed.

Lemma nth_error_set_nth_other i j (t : T) tasks :
  i <> j -> nth_error (set_nth i t tasks) j = nth_error tasks j.
Proof.
  revert i j. induction tasks as [|t0 tasks IH]; intros [|i] [|j] Hne; cbn; auto;
    try congruence.
Qed.

(** a request that is scheduled [n] times has at most [remaining - n] steps
    left, whatever else is scheduled in between *)
Lemma interleave_remaining sched : forall tasks st i t,
  nth_error tasks i = Some t ->
  exists t',
    nth_error (fst (interleave step sched tasks st)) i = Some t' /\
    (remaining t' <= remaining t - count_occ Nat.eq_dec sched i)%nat.
Proof.
  induction sched as [|j sched IH]; intros tasks st i t Hi; cbn [interleave count_occ].
  - exists t. split; [assumption | lia].
  - destruct (nth_error tasks j) as [tj|] eqn:Hj.
    + pose proof (step_remaining j tj st) as Hdec.
      destruct (step j tj st) as [tj' st1]. cbn [fst] in Hdec.
      assert (Hlen : (j < List.length tasks)%nat)
        by (apply nth_error_Some; congruence).
      destruct (Nat.eq_dec j i) as [->|Hne].
      * assert (tj = t) by congruence. subst tj.
        destruct (IH (set_nth i tj' tasks) st1 i tj'
                    (nth_error_set_nth_same i tj' tasks Hlen)) as (t' & Ht' & Hle).
        exists t'. split; [assumption | lia].
      * destruct (IH (set_nth j tj' tasks) st1 i t) as (t' & Ht' & Hle).
        { now rewrite nth_error_set_nth_other. }
        exists t'. split; [assumption | lia].
    + destruct (Nat.eq_dec j i) as [->|Hne]; [congruence|].
      now apply IH.
Qed.
End Settling.

Lemma interleave_settled {T} (step : nat -> T -> Store -> T * Store) (t : T) sched :
  (forall j st, fst (step j t st) = t) ->
  forall tasks st i,
    nth_error tasks i = Some t ->
    nth_error (fst (interleave step sched tasks st)) i = Some t.
Proof.
  intros Hfix. induction sched as [|j sched IH]; intros tasks st i Hi; cbn [interleave];
    [assumption|].
  destruct (nth_error tasks j) as [tj|] eqn:Hj; [|now apply IH].
  pose proof (Hfix j st) as Hj'.
  destruct (step j tj st) as [tj' st1] eqn:Hstep. apply IH.
  destruct (Nat.eq_dec j i) as [->|Hne].
  - assert (tj = t) by congruence. subst tj. rewrite Hstep in Hj'. cbn in Hj'. subst tj'.
    apply nth_error_set_nth_same. apply nth_error_Some. congruence.
  - now rewrite nth_error_set_nth_other.
Qed.

Lemma code_step_remaining env client code redirectUri t st :
  (code_remaining (fst (code_step env client code redirectUri t st))
   <= pred (code_remaining t))%nat.
Proof.
  destruct t; cbn [code_step].
  - destruct (authCodeModel.findOne_value code st) as [ac|]; [|cbn; lia].
    destruct (clientModel.findById (authCode_clientId ac) st) as [h|]; [|cbn; lia].
    destruct (_ && _); cbn; lia.
  - destruct (authCodeModel.remove env authCode st) as [st' [e|a]]; cbn; lia.
  - destruct (accessTokenModel.save env _ st) as [st' [e|a]]; cbn; lia.
  - destruct (refreshTokenModel.save env _ st) as [st' [e|a]]; cbn; lia.
  - cbn. lia.
Qed.

Lemma refresh_step_remaining env client refreshToken t st :
  (refresh_remaining (fst (refresh_step env client refreshToken t st))
   <= pred (refresh_remaining t))%nat.
Proof.
  destruct t; cbn [refresh_step].
  - destruct (refreshTokenModel.findOne_value refreshToken st) as [doc|]; [|cbn; lia].
    destruct (accessTokenModel.findById (refreshToken_accessTokenId doc) st) as [old|];
      [|cbn; lia].
    destruct (clientModel.findById (accessToken_clientId old) st) as [h|]; [|cbn; lia].
    destruct (client_id h =? client_id client); cbn; lia.
  - destruct (accessTokenModel.save env _ st) as [st' [e|a]]; cbn; lia.
  - destruct (accessTokenModel.remove env old st) as [st' [e|a]]; cbn; lia.
  - destruct (refreshTokenModel.remove env refreshTokenDoc st) as [st' [e|a]]; cbn; lia.
  - destruct (refreshTokenModel.save env _ st) as [st' [e|a]]; cbn; lia.
  - cbn. lia.
Qed.

(** X12. However the awaits of concurrent requests interleave, a code exchange has
    called [done] (or thrown) once it has been scheduled four times and a
    refresh exchange once it has been scheduled five times, and an exchange
    that has settled keeps its outcome: no request waits for another. *)
Theorem exchanges_settle (envs : nat -> Env) (clientOf : nat -> Client)
    (valueOf uriOf : nat -> string) sched st i :
  (forall tasks t,
     nth_error tasks i = Some t ->
     (code_remaining t <= count_occ Nat.eq_dec sched i)%nat ->
     exists o,
       nth_error
         (fst (interleave
                 (fun j => code_step (envs j) (clientOf j) (valueOf j) (uriOf j))
                 sched tasks st)) i
       = Some (CodeSettled o)) /\
  (forall tasks t,
     nth_error tasks i = Some t ->
     (refresh_remaining t <= count_occ Nat.eq_dec sched i)%nat ->
     exists o,
       nth_error
         (fst (interleave
                 (fun j => refresh_step (envs j) (clientOf j) (valueOf j))
                 sched tasks st)) i
       = Some (RefreshSettled o)) /\
  (forall tasks o,
     nth_error tasks i = Some (CodeSettled o) ->
     nth_error
       (fst (interleave
               (fun j => code_step (envs j) (clientOf j) (valueOf j) (uriOf j))
               sched tasks st)) i
     = Some (CodeSettled o)) /\
  (forall tasks o,
     nth_error tasks i = Some (RefreshSettled o) ->
     nth_error
       (fst (interleave
               (fun j => refresh_step (envs j) (clientOf j) (valueOf j))
               sched tasks st)) i
     = Some (RefreshSettled o)).
Proof.
  split; [|split; [|split]].
  - intros tasks t Hi Hcount.
    destruct (interleave_remaining
                (fun j => code_step (envs j) (clientOf j) (valueOf j) (uriOf j))
                code_remaining
                (fun j t0 st0 => code_step_remaining (envs j) (clientOf j) (valueOf j)
                                   (uriOf j) t0 st0)
                sched tasks st i t Hi) as (t' & Ht' & Hle).
    destruct t'; cbn in Hle; try lia. now exists o.
  - intros tasks t Hi Hcount.
    destruct (interleave_remaining
                (fun j => refresh_step (envs j) (clientOf j) (valueOf j))
                refresh_remaining
                (fun j t0 st0 => refresh_step_remaining (envs j) (clientOf j) (valueOf j)
                                   t0 st0)
                sched tasks st i t Hi) as (t' & Ht' & Hle).
    destruct t'; cbn in Hle; try lia. now exists o.
  - intros tasks o Hi. now apply interleave_settled.
  - intros tasks o Hi. now apply interleave_settled.
Qed.

(** * The helpers of the test suite *)

(** ** Objects *)

Lemma assign_keys key v obj :
  In key (Object_keys obj) -> Object_keys (assign key v obj) = Object_keys obj.
Proof.
  unfold Object_keys. induction obj as [|[k w] obj IH]; cbn; [contradiction|].
  intros Hin. destruct (String.eqb_spec k key) as [->|Hne]; cbn; [reflexivity|].
  f_equal. apply IH. destruct Hin; [contradiction | assumption].
Qed.

Lemma assign_fresh key v obj :
  ~ In key (Object_keys obj) -> assign key v obj = obj ++ [(key, v)].
Proof.
  unfold Object_keys. induction obj as [|[k w] obj IH]; cbn; intros Hnot; [reflexivity|].
  destruct (String.eqb_spec k key) as [->|Hne]; [tauto|].
  f_equal. apply IH. tauto.
Qed.

Lemma get_assign_same key v obj : get key (assign key v obj) = v.
Proof.
  unfold get. induction obj as [|[k w] obj IH]; cbn.
  - now rewrite String.eqb_refl.
  - destruct (String.eqb_spec k key) as [->|Hne]; cbn.
    + now rewrite String.eqb_refl.
    + apply String.eqb_neq in Hne. now rewrite Hne.
Qed.

Lemma get_assign_other key key' v obj :
  key' <> key -> get key' (assign key v obj) = get key' obj.
Proof.
  intros Hne. unfold get. induction obj as [|[k w] obj IH]; cbn.
  - apply not_eq_sym in Hne. apply String.eqb_neq in Hne. now rewrite Hne.
  - destruct (String.eqb_spec k key) as [->|Hk]; cbn.
    + apply not_eq_sym in Hne. apply String.eqb_neq in Hne. now rewrite Hne.
    + destruct (k =? key'); [reflexivity | exact IH].
Qed.

Lemma get_defined_key key obj : get key obj <> JsUndefined -> In key (Object_keys obj).
Proof.
  unfold get, Object_keys. intros Hdef.
  destruct (find (fun kv => fst kv =? key) obj) as [kv|] eqn:Hf; [|contradiction].
  apply find_some in Hf. destruct Hf as [Hin Hk]. apply String.eqb_eq in Hk.
  subst key. now apply in_map.
Qed.

Lemma get_own_property obj kv :
  NoDup (Object_keys obj) -> In kv obj -> get (fst kv) obj = snd kv.
Proof.
  intros Hnd Hin. unfold get. now rewrite (find_unique_key fst obj kv Hnd Hin).
Qed.

(** ** [lowerCasePropertiesValues] *)

Lemma lower_items_strings toLowerCase items :
  forallb is_string items = true ->
  lower_items toLowerCase items
  = (map (fun item => match item with
                      | JsString s => JsString (toLowerCase s)
                      | other => other
                      end) items, false).
Proof.
  induction items as [|[s|l| |n] items IH]; cbn; try discriminate; [reflexivity|].
  intros Hall. now rewrite (IH Hall).
Qed.

Lemma lower_items_thrown toLowerCase items :
  snd (lower_items toLowerCase items) = negb (forallb is_string items).
Proof.
  induction items as [|[s|l| |n] items IH]; cbn; try reflexivity.
  destruct (lower_items toLowerCase items). exact IH.
Qed.

Lemma lowerCase_unlisted toLowerCase props key : forall obj,
  ~ In key props ->
  get key (lowered_obj (lowerCasePropertiesValues toLowerCase props obj)) = get key obj.
Proof.
  induction props as [|prop props IH]; intros obj Hnot; cbn; [reflexivity|].
  assert (Hne : key <> prop) by (intros ->; apply Hnot; now left).
  assert (Hrest : ~ In key props) by (intros Hin; apply Hnot; now right).
  destruct (get prop obj) as [s|items| |n].
  - rewrite IH; [now apply get_assign_other | exact Hrest].
  - destruct (lower_items toLowerCase items) as [items' [|]]; cbn.
    + now apply get_assign_other.
    + rewrite IH; [now apply get_assign_other | exact Hrest].
  - now apply IH.
  - now apply IH.
Qed.

(** ** [lowerCasePropertiesValues] in place *)





Lemma nth_set_nth_same {T} i (t d : T) l :
  i < List.length l -> nth i (set_nth i t l) d = t.
Proof.
  revert i. induction l as [|x l IH]; intros [|i] Hlt; cbn in *; try lia; [reflexivity|].
  apply IH. lia.
Qed.

Lemma nth_set_nth_other {T} i j (t d : T) l :
  i <> j -> nth j (set_nth i t l) d = nth j l d.
Proof.
  revert i j. induction l as [|x l IH]; intros [|i] [|j] Hne; cbn; try reflexivity;
    try congruence.
  apply IH. congruence.
Qed.

Lemma length_set_nth {T} i (t : T) l : List.length (set_nth i t l) = List.length l.
Proof.
  revert i. induction l as [|x l IH]; intros [|i]; cbn; auto.
Qed.


Lemma get_read heap key obj : get key (read heap obj) = read_value heap (ref_get key obj).
Proof.
  unfold get, ref_get, read. induction obj as [|[k w] obj IH]; cbn; [reflexivity|].
  destruct (k =? key); [reflexivity | exact IH].
Qed.

Lemma read_ref_assign heap key v obj :
  read heap (ref_assign key v obj) = assign key (read_value heap v) (read heap obj).
Proof.
  unfold read. induction obj as [|[k w] obj IH]; cbn; [reflexivity|].
  destruct (k =? key); cbn; [reflexivity | now rewrite IH].
Qed.

Lemma ref_get_address key obj address :
  ref_get key obj = RefArray address -> In address (addresses obj).
Proof.
  unfold ref_get, addresses. intros Hget.
  destruct (find (fun kv => fst kv =? key) obj) as [kv|] eqn:Hf; [|discriminate].
  apply find_some in Hf. destruct Hf as [Hin _].
  apply in_flat_map. exists kv. split; [assumption|]. rewrite Hget. now left.
Qed.

Lemma read_set_nth_absent heap address items obj :
  ~ In address (addresses obj) -> read (set_nth address items heap) obj = read heap obj.
Proof.
  unfold read, addresses. induction obj as [|[k w] obj IH]; cbn; [reflexivity|].
  intros Hnot. rewrite IH by (intros Hin; apply Hnot, in_or_app; now right).
  do 2 f_equal. destruct w as [s|a| |n]; cbn; try reflexivity.
  f_equal. unfold deref. apply nth_set_nth_other.
  intros <-. apply Hnot. cbn. now left.
Qed.

Lemma read_set_nth heap prop address items obj :
  NoDup (addresses obj) ->
  address < List.length heap ->
  ref_get prop obj = RefArray address ->
  read (set_nth address items heap) obj = assign prop (JsArray items) (read heap obj).
Proof.
  intros Hnd Hlt. induction obj as [|[k w] obj IH]; [discriminate|].
  change (addresses ((k, w) :: obj))
    with (match w with RefArray a => [a] | _ => [] end ++ addresses obj) in Hnd.
  change (read (set_nth address items heap) ((k, w) :: obj))
    with ((k, read_value (set_nth address items heap) w)
          :: read (set_nth address items heap) obj).
  change (read heap ((k, w) :: obj)) with ((k, read_value heap w) :: read heap obj).
  unfold ref_get. cbn [find fst snd assign].
  destruct (String.eqb_spec k prop) as [->|Hne].
  - intros Hw. cbn in Hw. subst w.
    cbn in Hnd. apply NoDup_cons_iff in Hnd. destruct Hnd as [Hnot _].
    cbn. unfold deref at 1. rewrite nth_set_nth_same by assumption.
    f_equal. now apply read_set_nth_absent.
  - intros Hget. fold (ref_get prop obj) in Hget.
    assert (Hin := ref_get_address _ _ _ Hget).
    assert (Hrest : NoDup (addresses obj)) by (now apply NoDup_app_remove_l in Hnd).
    rewrite (IH Hrest Hget). do 2 f_equal.
    destruct w as [s|a| |n]; cbn; try reflexivity.
    f_equal. unfold deref. apply nth_set_nth_other.
    intros <-. cbn in Hnd. apply NoDup_cons_iff in Hnd. now destruct Hnd.
Qed.

Lemma addresses_ref_assign_string prop s s' obj :
  ref_get prop obj = RefString s ->
  addresses (ref_assign prop (RefString s') obj) = addresses obj.
Proof.
  unfold ref_get, addresses. induction obj as [|[k w] obj IH]; [discriminate|].
  cbn [find fst snd ref_assign]. destruct (k =? prop); cbn.
  - now intros ->.
  - intros Hget. now rewrite IH.
Qed.

(** When no array is held by two properties, the object that the in-place
    [lowerCasePropertiesValues] leaves reads as the object that
    [lowerCasePropertiesValues] on values leaves, and the one throws when the
    other does. *)
Lemma lowerCase_inPlace_read toLowerCase props : forall obj heap,
  unshared obj heap ->
  read (inPlace_heap (lowerCasePropertiesValues_inPlace toLowerCase props obj heap))
       (inPlace_obj (lowerCasePropertiesValues_inPlace toLowerCase props obj heap))
  = lowered_obj (lowerCasePropertiesValues toLowerCase props (read heap obj)) /\
  inPlace_thrown (lowerCasePropertiesValues_inPlace toLowerCase props obj heap)
  = lowered_thrown (lowerCasePropertiesValues toLowerCase props (read heap obj)).
Proof.
  induction props as [|prop props IH]; intros obj heap [Hnd Hrange]; cbn;
    [split; reflexivity|].
  rewrite get_read. destruct (ref_get prop obj) as [s|a| |n] eqn:Hget; cbn.
  - rewrite <- (read_ref_assign heap prop (RefString (toLowerCase s))).
    apply IH. unfold unshared.
    now rewrite (addresses_ref_assign_string prop s (toLowerCase s) obj Hget).
  - assert (Hlt : a < List.length heap) by (apply Hrange; eapply ref_get_address; eassumption).
    destruct (lower_items toLowerCase (deref heap a)) as [items' [|]]; cbn.
    + split; [now apply read_set_nth | reflexivity].
    + rewrite <- (read_set_nth heap prop a items' obj Hnd Hlt Hget).
      apply IH. split; [assumption|]. intros b Hb. rewrite length_set_nth. now apply Hrange.
  - apply IH. now split.
  - apply IH. now split.
Qed.

Lemma lower_value_idempotent toLowerCase v :
  (forall s, toLowerCase (toLowerCase s) = toLowerCase s) ->
  lower_value toLowerCase (lower_value toLowerCase v) = lower_value toLowerCase v.
Proof.
  intros Hidem. destruct v as [s|items| |n]; cbn; try reflexivity.
  - now rewrite Hidem.
  - f_equal. rewrite map_map. apply map_ext. intros [s|l| |n]; try reflexivity.
    now rewrite Hidem.
Qed.

Lemma lowered_strings toLowerCase items :
  forallb is_string items = true ->
  forallb is_string (map (fun item => match item with
                                      | JsString s => JsString (toLowerCase s)
                                      | other => other
                                      end) items) = true.
Proof.
  induction items as [|[s|l| |n] items IH]; cbn; auto.
Qed.

(** X17. When every array among the listed properties holds strings only, the call
    does not throw and every listed property ends up lower-cased: a string as
    its lower case, an array as the array of the lower cases, anything else as
    it was ([toLowerCase] applied twice being [toLowerCase], a property named
    twice is no different). *)
Theorem lowerCase_lowers toLowerCase props obj :
  (forall s, toLowerCase (toLowerCase s) = toLowerCase s) ->
  strings_only props obj ->
  lowered_thrown (lowerCasePropertiesValues toLowerCase props obj) = false /\
  (forall key,
     In key props ->
     get key (lowered_obj (lowerCasePropertiesValues toLowerCase props obj))
     = lower_value toLowerCase (get key obj)).
Proof.
  intros Hidem. revert obj. induction props as [|prop props IH]; intros obj Hstr;
    [cbn; split; [reflexivity | contradiction]|].
  assert (Hstep : forall obj',
             get prop obj' = lower_value toLowerCase (get prop obj) ->
             (forall key, key <> prop -> get key obj' = get key obj) ->
             lowered_thrown (lowerCasePropertiesValues toLowerCase props obj') = false /\
             (forall key, In key (prop :: props) ->
                get key (lowered_obj (lowerCasePropertiesValues toLowerCase props obj'))
                = lower_value toLowerCase (get key obj))).
  { intros obj' Hprop Hother.
    assert (Hstr' : strings_only props obj').
    { intros k items Hin Hget. destruct (string_dec k prop) as [->|Hne].
      - rewrite Hprop in Hget. destruct (get prop obj) as [s|items0| |n] eqn:H0;
          cbn in Hget; try discriminate.
        injection Hget as <-. apply lowered_strings.
        apply (Hstr prop items0); [now left | assumption].
      - rewrite (Hother k Hne) in Hget. apply (Hstr k items); [now right | assumption]. }
    destruct (IH obj' Hstr') as [Hno Hg]. split; [assumption|].
    intros key Hin. destruct (in_dec string_dec key props) as [Hrest|Hrest].
    - rewrite (Hg key Hrest). destruct (string_dec key prop) as [->|Hne].
      + rewrite Hprop. now apply lower_value_idempotent.
      + now rewrite (Hother key Hne).
    - destruct Hin as [<-|Hin]; [|contradiction].
      now rewrite (lowerCase_unlisted toLowerCase props prop obj' Hrest). }
  cbn [lowerCasePropertiesValues].
  destruct (get prop obj) as [s|items| |n] eqn:Hget.
  - apply Hstep; [apply get_assign_same | intros key Hne; now apply get_assign_other].
  - rewrite (lower_items_strings toLowerCase items (Hstr prop items (or_introl eq_refl) Hget)).
    apply Hstep; [apply get_assign_same | intros key Hne; now apply get_assign_other].
  - apply Hstep; [now rewrite Hget | reflexivity].
  - apply Hstep; [now rewrite Hget | reflexivity].
Qed.

(** X18. The call ends in a [TypeError] exactly when an array among the listed
    properties holds something that is not a string. *)
Theorem lowerCase_throws toLowerCase props obj :
  lowered_thrown (lowerCasePropertiesValues toLowerCase props obj) = true <->
  exists prop items,
    In prop props /\ get prop obj = JsArray items /\ forallb is_string items = false.
Proof.
  revert obj. induction props as [|prop props IH]; intros obj; cbn [lowerCasePropertiesValues].
  - cbn. split; [discriminate | intros (p & items & [] & _)].
  - assert (Hskip : forall obj',
               get prop obj' = lower_value toLowerCase (get prop obj) ->
               (forall key, key <> prop -> get key obj' = get key obj) ->
               (forall items, get prop obj = JsArray items -> forallb is_string items = true) ->
               lowered_thrown (lowerCasePropertiesValues toLowerCase props obj') = true <->
               exists p items,
                 In p (prop :: props) /\ get p obj = JsArray items /\
                 forallb is_string items = false).
    { intros obj' Hprop Hother Hgood. rewrite IH. split.
      - intros (p & items & Hin & Hget & Hbad). destruct (string_dec p prop) as [->|Hne].
        + exfalso. rewrite Hprop in Hget.
          destruct (get prop obj) as [s|items0| |n] eqn:H0; cbn in Hget; try discriminate.
          injection Hget as <-. rewrite lowered_strings in Hbad; [discriminate|].
          now apply Hgood.
        + exists p, items. rewrite <- (Hother p Hne). auto using in_cons.
      - intros (p & items & Hin & Hget & Hbad). destruct (string_dec p prop) as [->|Hne].
        + rewrite (Hgood items Hget) in Hbad. discriminate.
        + exists p, items. rewrite (Hother p Hne).
          destruct Hin as [->|Hin]; [contradiction | auto]. }
    destruct (get prop obj) as [s|items| |n] eqn:Hget.
    + apply Hskip; [apply get_assign_same | intros key Hne; now apply get_assign_other
                    | discriminate].
    + destruct (forallb is_string items) eqn:Hall.
      * rewrite (lower_items_strings toLowerCase items Hall).
        apply Hskip; [apply get_assign_same | intros key Hne; now apply get_assign_other|].
        intros items0 Heq. now injection Heq as <-.
      * pose proof (lower_items_thrown toLowerCase items) as Hthrown.
        destruct (lower_items toLowerCase items) as [items' thrown]. cbn in Hthrown.
        rewrite Hall in Hthrown. subst thrown. cbn.
        split; [|reflexivity]. intros _. exists prop, items. auto.
    + apply Hskip; [now rewrite Hget | reflexivity | discriminate].
    + apply Hskip; [now rewrite Hget | reflexivity | discriminate].
Qed.

(** ** [dismantleNestedProperties] *)

Lemma append_assoc (a b c : string) : ((a ++ b) ++ c = a ++ (b ++ c))%string.
Proof. induction a as [|x a IH]; cbn; [reflexivity | now rewrite IH]. Qed.

Lemma dismantle_items_fresh name items : forall index out,
  NoDup (Object_keys (out ++ indexed name index items)) ->
  dismantle_items name index items out = out ++ indexed name index items.
Proof.
  induction items as [|item items IH]; intros index out Hnd; cbn.
  - now rewrite app_nil_r.
  - cbn in Hnd. rewrite assign_fresh.
    + rewrite IH; rewrite <- app_assoc; [reflexivity | exact Hnd].
    + unfold Object_keys in *. rewrite map_app in Hnd. cbn in Hnd.
      apply NoDup_remove_2 in Hnd. intros Hin. apply Hnd. apply in_or_app. now left.
Qed.

Lemma dismantle_fold prop obj l : forall out,
  (forall kv, In kv l -> get (fst kv) obj = snd kv) ->
  NoDup (Object_keys (out ++ dismantled prop l)) ->
  fold_left
    (fun destructiveObj key =>
       match get key obj with
       | JsArray items => dismantle_items (prop ++ "." ++ key)%string 0 items destructiveObj
       | v => assign (prop ++ "." ++ key)%string v destructiveObj
       end)
    (Object_keys l) out
  = out ++ dismantled prop l.
Proof.
  induction l as [|[k v] l IH]; intros out Hget Hnd.
  - cbn. now rewrite app_nil_r.
  - unfold Object_keys at 1. cbn [map fold_left fst]. fold (Object_keys l).
    pose proof (Hget (k, v) (or_introl eq_refl)) as Hk. cbn [fst snd] in Hk. rewrite Hk.
    assert (Hget' : forall kv, In kv l -> get (fst kv) obj = snd kv)
      by (intros kv Hin; apply Hget; now right).
    unfold dismantled in Hnd. cbn [flat_map fst snd] in Hnd. fold (dismantled prop l) in Hnd.
    assert (Hsingle : forall w,
               NoDup (Object_keys (out ++ [((prop ++ "." ++ k)%string, w)]
                                       ++ dismantled prop l)) ->
               fold_left
                 (fun destructiveObj key =>
                    match get key obj with
                    | JsArray items =>
                      dismantle_items (prop ++ "." ++ key)%string 0 items destructiveObj
                    | v0 => assign (prop ++ "." ++ key)%string v0 destructiveObj
                    end)
                 (Object_keys l) (assign (prop ++ "." ++ k)%string w out)
               = out ++ [((prop ++ "." ++ k)%string, w)] ++ dismantled prop l).
    { intros w Hw. rewrite assign_fresh.
      - rewrite IH; [now rewrite <- app_assoc | exact Hget' | now rewrite <- app_assoc].
      - unfold Object_keys in *. rewrite map_app in Hw. cbn in Hw.
        apply NoDup_remove_2 in Hw. intros Hin. apply Hw. apply in_or_app. now left. }
    destruct v as [s|items| |n]; cbn [dismantled flat_map fst snd]; try (now apply Hsingle).
    rewrite dismantle_items_fresh.
    + rewrite IH; [now rewrite <- app_assoc | exact Hget' | now rewrite <- app_assoc].
    + rewrite app_assoc in Hnd. unfold Object_keys in *. rewrite map_app in Hnd.
      now apply NoDup_app_remove_r in Hnd.
Qed.

Lemma indexed_nth name items : forall index i,
  (i < List.length items)%nat ->
  In ((name ++ "[" ++ decimal (index + i) ++ "]")%string, nth i items JsUndefined)
     (indexed name index items).
Proof.
  induction items as [|item items IH]; intros index i Hlt; cbn in *; [lia|].
  destruct i as [|i].
  - left. now rewrite Nat.add_0_r.
  - right. replace (index + S i)%nat with (S index + i)%nat by lia. apply IH. lia.
Qed.

(** the result when the names written do not collide *)
Lemma dismantle_flattens prop obj :
  NoDup (Object_keys obj) ->
  NoDup (Object_keys (dismantled prop obj)) ->
  dismantleNestedProperties prop obj = dismantled prop obj /\
  (forall key v,
     In (key, v) obj -> is_array v = false ->
     get (prop ++ "." ++ key)%string (dismantleNestedProperties prop obj) = v) /\
  (forall key items i,
     In (key, JsArray items) obj -> (i < List.length items)%nat ->
     get (prop ++ "." ++ key ++ "[" ++ decimal i ++ "]")%string
         (dismantleNestedProperties prop obj)
     = nth i items JsUndefined).
Proof.
  intros Hkeys Hnames.
  assert (Heq : dismantleNestedProperties prop obj = dismantled prop obj).
  { unfold dismantleNestedProperties.
    rewrite (dismantle_fold prop obj obj []); [reflexivity | | exact Hnames].
    intros kv Hin. now apply get_own_property. }
  rewrite Heq. split; [reflexivity|]. split.
  - intros key v Hin Harr.
    apply (get_own_property (dismantled prop obj) ((prop ++ "." ++ key)%string, v) Hnames).
    unfold dismantled. apply in_flat_map. exists (key, v). split; [assumption|].
    cbn. destruct v; try discriminate; now left.
  - intros key items i Hin Hlt.
    apply (get_own_property (dismantled prop obj)
             ((prop ++ "." ++ key ++ "[" ++ decimal i ++ "]")%string, nth i items JsUndefined)
             Hnames).
    unfold dismantled. apply in_flat_map. exists (key, JsArray items). split; [assumption|].
    cbn [snd fst].
    replace (prop ++ "." ++ key ++ "[" ++ decimal i ++ "]")%string
      with ((prop ++ "." ++ key) ++ "[" ++ decimal i ++ "]")%string
      by (now rewrite append_assoc).
    exact (indexed_nth (prop ++ "." ++ key)%string items 0 i Hlt).
Qed.

Lemma append_empty_r (a : string) : (a ++ "")%string = a.
Proof. induction a as [|c a IH]; cbn; [reflexivity | now rewrite IH]. Qed.

Lemma append_inj_l (p a b : string) : (p ++ a = p ++ b)%string -> a = b.
Proof. induction p as [|c p IH]; cbn; [auto|]. intros H. injection H as H. auto. Qed.

Lemma append_bracket_inj (a b : string) : (a ++ "]" = b ++ "]")%string -> a = b.
Proof.
  revert b. induction a as [|x a IH]; intros [|y b]; cbn; intros H; auto.
  - injection H as _ H. destruct b; discriminate.
  - injection H as _ H. destruct a; discriminate.
  - injection H as -> H. f_equal. now apply IH.
Qed.

Lemma decimal_inj i j : decimal i = decimal j -> i = j.
Proof.
  unfold decimal. intros H.
  assert (Hu : Some (Nat.to_uint i) = Some (Nat.to_uint j)).
  { rewrite <- !NilEmpty.usu. now rewrite H. }
  injection Hu as Hu. apply (f_equal Nat.of_uint) in Hu.
  now rewrite !Unsigned.of_to in Hu.
Qed.

Lemma bracket_free_split k : forall k' t t',
  bracket_free k = true -> bracket_free k' = true ->
  name_tail t -> name_tail t' ->
  (k ++ t = k' ++ t')%string -> k = k' /\ t = t'.
Proof.
  induction k as [|c k IH]; intros [|c' k'] t t' Hk Hk' Ht Ht' Heq; cbn in *.
  - auto.
  - exfalso. apply andb_true_iff in Hk'. destruct Hk' as [Hc _].
    destruct Ht as [-> | (rest & ->)]; [discriminate|].
    injection Heq as <- _. cbn in Hc. discriminate.
  - exfalso. apply andb_true_iff in Hk. destruct Hk as [Hc _].
    destruct Ht' as [-> | (rest & ->)]; [discriminate|].
    injection Heq as -> _. cbn in Hc. discriminate.
  - apply andb_true_iff in Hk. apply andb_true_iff in Hk'.
    injection Heq as -> Heq.
    destruct (IH k' t t') as [-> ->]; solve [tauto | auto].
Qed.

Lemma indexed_keys_form name items : forall index n,
  In n (Object_keys (indexed name index items)) ->
  exists m, (index <= m)%nat /\ n = (name ++ "[" ++ decimal m ++ "]")%string.
Proof.
  induction items as [|item items IH]; intros index n Hin; cbn in Hin; [contradiction|].
  destruct Hin as [<- | Hin].
  - exists index. auto.
  - destruct (IH (S index) n Hin) as (m & Hle & ->). exists m. split; [lia | reflexivity].
Qed.

Lemma indexed_NoDup name items : forall index,
  NoDup (Object_keys (indexed name index items)).
Proof.
  induction items as [|item items IH]; intros index; cbn; constructor; [|apply IH].
  intros Hin. apply indexed_keys_form in Hin. destruct Hin as (m & Hle & Heq).
  apply append_inj_l in Heq. injection Heq as Heq.
  apply append_bracket_inj, decimal_inj in Heq. lia.
Qed.

Lemma dismantled_name_form prop key v n :
  In n (Object_keys
          match v with
          | JsArray items => indexed (prop ++ "." ++ key)%string 0 items
          | _ => [((prop ++ "." ++ key)%string, v)]
          end) ->
  exists t, name_tail t /\ n = (prop ++ "." ++ key ++ t)%string.
Proof.
  assert (Hplain : forall w : JsValue,
             In n (Object_keys [((prop ++ "." ++ key)%string, w)]) ->
             exists t, name_tail t /\ n = (prop ++ "." ++ key ++ t)%string).
  { intros w [<- | []]. exists ""%string. split; [now left|].
    now rewrite append_empty_r. }
  destruct v as [s|items| |tag]; try apply Hplain.
  intros Hin. apply indexed_keys_form in Hin. destruct Hin as (m & _ & ->).
  exists ("[" ++ decimal m ++ "]")%string. split; [right; eexists; reflexivity|].
  now rewrite append_assoc.
Qed.

Lemma dismantled_NoDup prop obj :
  NoDup (Object_keys obj) ->
  forallb bracket_free (Object_keys obj) = true ->
  NoDup (Object_keys (dismantled prop obj)).
Proof.
  induction obj as [|[k v] obj IH]; cbn [dismantled flat_map Object_keys map forallb fst snd];
    intros Hnd Hfree; [constructor|].
  inversion Hnd as [|? ? Hnotin Hnd']; subst.
  apply andb_true_iff in Hfree. destruct Hfree as [Hk Hfree].
  fold (Object_keys obj) in *. fold (dismantled prop obj).
  rewrite map_app. apply NoDup_app.
  - destruct v as [s|items| |tag]; try (repeat constructor; intros []).
    apply (indexed_NoDup (prop ++ "." ++ k)%string items 0).
  - now apply IH.
  - intros n Hin Hin'.
    assert (Hform : exists t, name_tail t /\ n = (prop ++ "." ++ k ++ t)%string)
      by (destruct v as [s|items| |tag];
          [ exact (dismantled_name_form prop k (JsString s) n Hin)
          | exact (dismantled_name_form prop k (JsArray items) n Hin)
          | exact (dismantled_name_form prop k JsUndefined n Hin)
          | exact (dismantled_name_form prop k (JsOther tag) n Hin) ]).
    destruct Hform as (t & Ht & ->).
    unfold dismantled in Hin'. apply in_map_iff in Hin'.
    destruct Hin' as ([n' w] & Hn & Hin'). cbn in Hn. subst n'.
    apply in_flat_map in Hin'. destruct Hin' as ([k' v'] & Hkv & Hin'). cbn [fst snd] in Hin'.
    assert (Hname : In (prop ++ "." ++ k ++ t)%string
                       (Object_keys
                          match v' with
                          | JsArray items => indexed (prop ++ "." ++ k')%string 0 items
                          | _ => [((prop ++ "." ++ k')%string, v')]
                          end)).
    { unfold Object_keys. apply in_map_iff. exists ((prop ++ "." ++ k ++ t)%string, w).
      split; [reflexivity|]. destruct v'; exact Hin'. }
    apply dismantled_name_form in Hname. destruct Hname as (t' & Ht' & Heq).
    apply append_inj_l in Heq. injection Heq as Heq.
    assert (Hk' : bracket_free k' = true).
    { rewrite forallb_forall in Hfree. apply Hfree. unfold Object_keys.
      apply in_map_iff. now exists (k', v'). }
    destruct (bracket_free_split k k' t t' Hk Hk' Ht Ht' Heq) as [-> _].
    apply Hnotin. unfold Object_keys. apply in_map_iff. now exists (k', v').
Qed.

(** X19. For an object whose keys have no ["["] in them, [dismantleNestedProperties]
    returns exactly one property per property that is not an array and one per
    array element, in the order of the object: [prop.key] holds the value of a
    property that is not an array, [prop.key[i]] the [i]-th element of one that
    is; an empty array leaves no trace. *)
Theorem dismantle_bracket_free prop obj :
  NoDup (Object_keys obj) ->
  forallb bracket_free (Object_keys obj) = true ->
  dismantleNestedProperties prop obj = dismantled prop obj /\
  (forall key v,
     In (key, v) obj -> is_array v = false ->
     get (prop ++ "." ++ key)%string (dismantleNestedProperties prop obj) = v) /\
  (forall key items i,
     In (key, JsArray items) obj -> (i < List.length items)%nat ->
     get (prop ++ "." ++ key ++ "[" ++ decimal i ++ "]")%string
         (dismantleNestedProperties prop obj)
     = nth i items JsUndefined).
Proof.
  intros Hkeys Hfree. apply dismantle_flattens; [assumption|].
  now apply dismantled_NoDup.
Qed.

(** * From the code to the refreshed pair *)

(** X4. The refresh token a code exchange has just returned, under a value new
    to the store, is accepted from the same client: the refresh exchange
    issues again when the store accepts its writes, and the access token it
    stores still has grant type [code] and the user and scopes of the code. A
    client with another id that presents it is rejected. *)
Theorem exchange_code_then_refresh env env2 client code redirectUri st authCode a r e st'
    scope2 :
  authCodeModel.findOne_value code st = Some authCode ->
  exchange_code env client code redirectUri st = (DoneTokens a (Some r) e, st') ->
  refreshTokenModel.findOne_value r st = None ->
  (store_accepts env2 st' = true ->
   fst (exchange_refreshToken env2 client r scope2 st')
   = DoneTokens (accessTokenValue env2) (Some (refreshTokenValue env2)) (expireAt env2) /\
   exists t,
     In t (accessTokens (snd (exchange_refreshToken env2 client r scope2 st'))) /\
     accessToken_value t = accessTokenValue env2 /\
     accessToken_grantType t = "code" /\
     accessToken_userId t = Some (authCode_userId authCode) /\
     accessToken_scopes t = authCode_scopes authCode) /\
  (forall other,
     client_id other <> client_id client ->
     exchange_refreshToken env2 other r scope2 st' = (DoneFalse, st')).
Proof.
  intros Hfind Hex Hrfresh.
  apply exchange_code_issued_store in Hex.
  destruct Hex as (ac & h & (Hf & Hp & Hid & Huri) & -> & Hr & -> & Hfree & ->).
  injection Hr as ->.
  assert (ac = authCode) by congruence. subst ac.
  assert (Hholder := findById_client__id _ _ _ Hp).
  set (first := code_accessToken env authCode h).
  set (st' := refreshTokenModel.set
                (refreshTokens st ++ [paired_refreshToken env first])
                (accessTokenModel.set (accessTokens st ++ [first])
                   (authCodeModel.set
                      (filter (fun x => negb (authCode__id x =? authCode__id authCode)%nat)
                              (authCodes st)) st))).
  assert (Hdoc : refreshTokenModel.findOne_value (refreshTokenValue env) st'
                 = Some (paired_refreshToken env first)).
  { unfold refreshTokenModel.findOne_value in *. unfold st'. store_simpl.
    rewrite (find_app_last _ _ _ Hrfresh). cbn. now rewrite String.eqb_refl. }
  assert (Hold : accessTokenModel.findById
                   (refreshToken_accessTokenId (paired_refreshToken env first)) st'
                 = Some first).
  { unfold accessTokenModel.findById. unfold st'. store_simpl.
    rewrite find_app_last; [cbn; now rewrite Nat.eqb_refl|].
    now apply find_none_existsb. }
  assert (Hcl : clientModel.findById (accessToken_clientId first) st' = Some h).
  { unfold clientModel.findById in *. unfold st'.
    cbn [clients first code_accessToken accessToken_clientId
         refreshTokenModel.set accessTokenModel.set authCodeModel.set].
    now rewrite Hholder. }
  split.
  - intros Hok.
    assert (Hchk : refresh_checks st' client (refreshTokenValue env)
                     (paired_refreshToken env first) first h)
      by (unfold refresh_checks; auto).
    pose proof (exchange_refreshToken_issues env2 client _ scope2 st' _ _ _ Hchk Hok) as Hiss.
    split; [exact Hiss|].
    destruct (exchange_refreshToken env2 client (refreshTokenValue env) scope2 st')
      as [o st2] eqn:Hrun. cbn [fst snd] in *. subst o.
    apply exchange_refreshToken_issued_store in Hrun.
    destruct Hrun as (doc' & old' & h' & (Hf' & Ho' & Hp' & _) & _ & _ & _ & Hfree' & ->).
    assert (doc' = paired_refreshToken env first) by congruence. subst doc'.
    assert (old' = first) by congruence. subst old'.
    exists (refreshed_accessToken env2 first h'). split; [|cbn; auto].
    store_simpl. apply (in_remove_by_id accessToken__id).
    split; [apply in_or_app; right; now left|].
    cbn [accessToken__id refreshed_accessToken]. intros Heq.
    destruct (findById_accessToken _ _ _ Hold) as [Hin _].
    apply (existsb_id_false accessToken__id (new_accessToken_id env2) _ first Hfree' Hin).
    now symmetry.
  - intros other Hne. unfold exchange_refreshToken. rewrite Hdoc, Hold, Hcl.
    assert (Hneq : client_id h <> client_id other) by congruence.
    apply String.eqb_neq in Hneq. now rewrite Hneq.
Qed.

(** * The further properties on the sample data *)

Module Scenarios.
Import Sample Fixtures.

Lemma authorization_validate_accepts_witness :
  authorization_validate "c1" cb registry = Some (c1, cb).
Proof.
  apply (authorization_validate_accepts "c1" cb registry c1 cb).
  split; [reflexivity|]. split; [simpl; auto | reflexivity].
Defined.

Lemma loginForm_outcome_witness :
  exists e, loginForm (Some from_authorize) = LoginRender e.
Proof.
  destruct (loginForm_outcome (Some from_authorize)) as (Hrender & _).
  apply Hrender. right. exists from_authorize, "client_id=c1"%string.
  split; reflexivity.
Defined.

Lemma serialize_deserialize_witness :
  deserializeClient (snd (serializeClient c2)) registry = (None, Some c2).
Proof.
  apply (serialize_deserialize c2 registry).
  - simpl. constructor; [simpl; intros [H | []]; discriminate|].
    constructor; [intros [] | constructor].
  - simpl. auto.
Defined.

Lemma grant_code_then_exchange_witness :
  fst (grant_code (env 0) c1 cb u1 ["read"] registry) = DoneCode "c".
Proof.
  exact (proj1 (grant_code_then_exchange (env 0) (env 1) c1 cb u1 ["read"] registry
                  eq_refl eq_refl eq_refl eq_refl eq_refl)).
Defined.

Lemma exchange_password_tokens_witness :
  exists st',
    exchange_password plain (env 0) c1 "u1@example.org" "hunter2" ["read"] registry
    = (DoneTokens "a" (Some "r") 180000, st').
Proof.
  destruct (exchange_password_tokens plain (env 0) c1 "u1@example.org" "hunter2" ["read"]
              registry) as (_ & Hissue).
  apply (Hissue c1 u1); reflexivity.
Defined.

Lemma introspect_issued_by_code_witness :
  tokenIntrospectionEndpoint c1 (Some "aa") exchanged = Active "c1" "read" 180001 (Some "u1").
Proof.
  destruct (introspect_issued_by_code (env 1) c1 "c" cb granted the_code
              "aa" (Some "rr") 180001 exchanged) as (Hactive & _);
    [reflexivity | reflexivity | discriminate | reflexivity |].
  apply (Hactive c1). reflexivity.
Defined.

Lemma immediate_after_exchange_code_witness :
  authorization_immediate c1 u1 ["read"] exchanged = true <->
  (forall s, In s ["read"] <-> In s ["read"]).
Proof.
  destruct (immediate_after_exchange_code (env 1) c1 "c" cb granted the_code
              "aa" (Some "rr") 180001 exchanged c1 u1 ["read"]) as (Hfirst & _);
    [reflexivity | reflexivity | reflexivity | reflexivity |].
  apply Hfirst. reflexivity.
Defined.

Lemma grant_token_implicit_witness :
  exists accessToken,
    accessTokens (snd (grant_token (env 0) c1 u1 ["read"] registry))
    = accessTokens registry ++ [accessToken] /\
    accessToken_grantType accessToken = "token".
Proof.
  destruct (grant_token_implicit (env 0) c1 u1 ["read"] registry) as (_ & Hissued & _).
  destruct (Hissued "a" None 180000%Z (snd (grant_token (env 0) c1 u1 ["read"] registry))
              eq_refl) as (_ & t & Happ & _ & _ & Hgrant & _).
  exists t. split; assumption.
Defined.

Lemma refresh_rotation_witness :
  tokenIntrospectionEndpoint c1 (Some "aa")
    (snd (exchange_refreshToken (env 2) c1 "rr" [] exchanged)) = Inactive.
Proof.
  destruct (refresh_rotation (env 2) c1 "rr" [] exchanged the_refreshToken the_accessToken
              "aaa" (Some "rrr") 180002
              (snd (exchange_refreshToken (env 2) c1 "rr" [] exchanged)))
    as (Hold & _);
    [reflexivity | reflexivity | reflexivity | discriminate | reflexivity | reflexivity
    | simpl; constructor; [intros [] | constructor]
    | simpl; constructor; [intros [] | constructor] |].
  apply (Hold c1).
Defined.

Lemma refresh_half_done_witness :
  exists st1,
    exchange_refreshToken remove_fails c1 "rr" [] exchanged
    = (DoneErr (StoreError RefreshTokenRemove), st1) /\
    refreshTokens st1 = refreshTokens exchanged /\
    accessTokenModel.findById (accessToken__id the_accessToken) st1 = None /\
    (forall env' client' scope',
       exchange_refreshToken env' client' "rr" scope' st1 = (Uncaught, st1)).
Proof.
  apply (refresh_half_done remove_fails c1 "rr" [] exchanged the_refreshToken
           the_accessToken c1); try reflexivity.
  unfold refresh_checks. repeat split; reflexivity.
Defined.

Lemma references_kept_witness :
  references_resolve two_tokens = true.
Proof.
  destruct (references_kept plain (env 2) c1 exchanged eq_refl) as (_ & _ & Hstored).
  destruct (Hstored eq_refl) as (_ & _ & Hpassword & _).
  apply (Hpassword "u1@example.org" "hunter2" ["read"; "write"]).
Defined.

Lemma introspect_issued_for_credentials_witness :
  tokenIntrospectionEndpoint c1 (Some "a")
    (snd (exchange_clientCredentials (env 0) c1 ["write"] registry))
  = Active "c1" "read" 180000 None.
Proof.
  destruct (introspect_issued_for_credentials plain (env 0) c1 registry eq_refl)
    as (_ & Hclient).
  apply (Hclient ["write"] c1 "a" None 180000%Z); [reflexivity | reflexivity | discriminate
                                                 | reflexivity].
Defined.

Lemma exchanges_settle_witness :
  exists o,
    nth_error
      (fst (interleave (fun j => code_step (env (1 + j)) c1 "c" cb)
              [0; 1; 0; 0; 0; 1] [CodeFindOne; CodeFindOne] granted)) 0
    = Some (CodeSettled o).
Proof.
  destruct (exchanges_settle (fun j => env (1 + j)) (fun _ => c1) (fun _ => "c")
              (fun _ => cb) [0; 1; 0; 0; 0; 1] granted 0) as (Hcode & _).
  apply (Hcode [CodeFindOne; CodeFindOne] CodeFindOne); [reflexivity | simpl; lia].
Defined.

Lemma lower_ascii_idempotent s : lower_ascii (lower_ascii s) = lower_ascii s.
Proof.
  induction s as [|c s IH]; cbn; [reflexivity|]. rewrite IH. f_equal.
  destruct c as [[] [] [] [] [] [] [] []]; reflexivity.
Qed.


(** [labels] is not listed, but holds the array that [tags] holds. *)
Lemma shared_array_is_lowered :
  read_value aliased_heap (ref_get "labels" aliased)
  = JsArray [JsString "Admin"; JsString "QA"] /\
  read_value
    (inPlace_heap (lowerCasePropertiesValues_inPlace lower_ascii ["name"; "tags"]
                     aliased aliased_heap))
    (ref_get "labels"
       (inPlace_obj (lowerCasePropertiesValues_inPlace lower_ascii ["name"; "tags"]
                       aliased aliased_heap)))
  = JsArray [JsString "admin"; JsString "qa"].
Proof.
  split; reflexivity.
Qed.

(** [profile] shares no array: in place it ends as it does on values. *)
Lemma profile_in_place :
  read profile_heap profile_refs = profile /\
  read
    (inPlace_heap (lowerCasePropertiesValues_inPlace lower_ascii ["name"; "tags"]
                     profile_refs profile_heap))
    (inPlace_obj (lowerCasePropertiesValues_inPlace lower_ascii ["name"; "tags"]
                    profile_refs profile_heap))
  = lowered_obj (lowerCasePropertiesValues lower_ascii ["name"; "tags"] profile).
Proof.
  split; [reflexivity|].
  apply (lowerCase_inPlace_read lower_ascii ["name"; "tags"] profile_refs profile_heap).
  split.
  - simpl. constructor; [intros [] | constructor].
  - simpl. intros address [<- | []]. lia.
Qed.

Lemma lowerCase_lowers_witness :
  get "tags" (lowered_obj (lowerCasePropertiesValues lower_ascii ["name"; "tags"] profile))
  = JsArray [JsString "admin"; JsString "qa"].
Proof.
  destruct (lowerCase_lowers lower_ascii ["name"; "tags"] profile lower_ascii_idempotent)
    as (_ & Hlisted).
  - intros prop items [<- | [<- | []]] Hget; vm_compute in Hget; try discriminate.
    injection Hget as <-. reflexivity.
  - apply (Hlisted "tags"). simpl. auto.
Defined.

Lemma lowerCase_throws_witness :
  lowered_thrown (lowerCasePropertiesValues lower_ascii ["name"; "tags"] mixed) = true.
Proof.
  apply (lowerCase_throws lower_ascii ["name"; "tags"] mixed).
  exists "tags"%string, [JsString "Admin"; JsOther 7].
  split; [simpl; auto|]. split; reflexivity.
Defined.

Lemma dismantle_bracket_free_witness :
  dismantleNestedProperties "user" profile
  = [("user.name", JsString "Bob"); ("user.tags[0]", JsString "Admin");
     ("user.tags[1]", JsString "QA"); ("user.age", JsOther 42)].
Proof.
  refine (proj1 (dismantle_bracket_free "user" profile _ eq_refl)).
  simpl. repeat (constructor; [simpl; intuition discriminate|]). constructor.
Defined.

Lemma exchange_code_then_refresh_witness :
  exchange_refreshToken (env 2) c2 "rr" [] exchanged = (DoneFalse, exchanged).
Proof.
  destruct (exchange_code_then_refresh (env 1) (env 2) c1 "c" cb granted the_code
              "aa" "rr" 180001 exchanged []) as (_ & Hother);
    [reflexivity | reflexivity | reflexivity |].
  apply (Hother c2). discriminate.
Defined.

End Scenarios.
